(** * HdfsFile: the LZO-framing HDFS writer of Scribe (src/HdfsFile.cpp)

    A shallow embedding of the writer's state, of the primitive header
    encoders, of the block framer [LZOCompress] and of the operations
    [openWrite], [write] and [close], followed by the properties of the
    framing and buffering engine.

    Conventions.
    - A [std::string] is a [list byte]; [len] is its [length()] as an integer.
    - C integers are [Z]; a conversion to [int] / [tSize] (32-bit signed) is
      [to_int], a conversion to [size_t] (64-bit unsigned) is [to_size_t].
      Sums of string lengths stay below 2^64 and are written without
      reduction.
    - The LZO library, libc and libhdfs are not part of the repository: they
      are records of functions.  The sink is observed through the trace of
      libhdfs calls the writer performs; what the backend answers may depend
      on the whole history of calls. *)

From Stdlib Require Import ZArith List Bool Lia.
From Stdlib.Strings Require Import Byte.
Import ListNotations.
Local Open Scope Z_scope.

(** ** C types and strings *)

Definition to_int (z : Z) : Z := (z + 2 ^ 31) mod 2 ^ 32 - 2 ^ 31.

Definition to_size_t (z : Z) : Z := z mod 2 ^ 64.

Definition to_uint32 (z : Z) : Z := z mod 2 ^ 32.

Definition len (s : list byte) : Z := Z.of_nat (length s).

(** [(unsigned char) z] *)
Definition uchar (z : Z) : byte :=
  match Byte.of_N (Z.to_N (Z.land z 255)) with
  | Some b => b
  | None => x00
  end.

(** [std::string(const char* p)]: the bytes up to the first NUL. *)
Fixpoint c_str (s : list byte) : list byte :=
  match s with
  | [] => []
  | c :: s' => if Byte.eqb c x00 then [] else c :: c_str s'
  end.

Definition string_eqb (a b : list byte) : bool :=
  if list_eq_dec Byte.byte_eq_dec a b then true else false.

(** The result of a call that may leave by a C++ exception.  [OutOfFuel]
    only bounds the recursion of the loop of [LZOCompress]; it is never
    produced by the fuel the function is run with. *)
Inductive outcome (A : Type) : Type :=
| Returns (a : A)
| Throws
| OutOfFuel.
Arguments Returns {A} a.
Arguments Throws {A}.
Arguments OutOfFuel {A}.

(** [s.substr(pos, n)] with both arguments already converted to [size_t]:
    [std::out_of_range] when [pos > s.length()], and otherwise the
    [min(n, s.length() - pos)] bytes from [pos] on. *)
Definition substr (s : list byte) (pos n : Z) : outcome (list byte) :=
  if len s <? pos then Throws
  else Returns (firstn (Z.to_nat (Z.min n (len s - pos)))
                  (skipn (Z.to_nat pos) s)).

(** ** Constants of the file *)

Definition lzop_magic : list byte :=
  [x89; x4c; x5a; x4f; x00; x0d; x0a; x1a; x0a].

Definition lzo_block_size : Z := 256 * 1024.

Definition F_ADLER32_D : Z := 1.
Definition F_ADLER32_C : Z := 2.
Definition lzo_flags : Z := Z.lor F_ADLER32_D F_ADLER32_C.
Definition lzo_method : Z := 1.
Definition LZOP_VERSION : Z := 0x1010.

(** ** External collaborators *)

Definition LZO_E_OK : Z := 0.

Record lzo_library : Type := {
  (** the compressors return the status code and the bytes left in [out] *)
  lzo1x_1_compress : list byte -> Z * list byte;
  lzo1x_999_compress : list byte -> Z * list byte;
  lzo_adler32 : Z -> list byte -> Z;
  lzo_version : Z;
  lzo_init : Z;
  LZO1X_1_MEM_COMPRESS : Z;
  LZO1X_999_MEM_COMPRESS : Z
}.

Record libc : Type := {
  basename : list byte -> list byte;
  (** [calloc(1, size) != NULL] *)
  calloc : Z -> bool
}.

Definition O_WRONLY : Z := 1.
Definition O_APPEND : Z := 1024.

(** [hdfsFS] and [hdfsFile] are pointers: an address, [NULL] being 0. *)
Definition hdfsFS : Type := Z.
Definition hdfsFile : Type := Z.
Definition NULL : Z := 0.

(** The calls on files the trace records.  The connection the constructor
    makes ([hdfsConnectNewInstance]), [hdfsListDirectory] and
    [hdfsDisconnect] are not recorded. *)
Inductive hdfs_call : Type :=
| CallExists (path : list byte)
| CallOpenFile (path : list byte) (flags : Z)
| CallWrite (f : hdfsFile) (buffer : list byte) (length : Z)
| CallCloseFile (f : hdfsFile).

Definition trace : Type := list hdfs_call.

Record hdfs_backend : Type := {
  hdfsExists_ret : trace -> list byte -> Z;
  hdfsOpenFile_ret : trace -> list byte -> Z -> hdfsFile;
  hdfsWrite_ret : trace -> hdfsFile -> list byte -> Z -> Z
}.

Definition is_write (c : hdfs_call) : bool :=
  match c with
  | CallWrite _ _ _ => true
  | _ => false
  end.

(** ** The writer *)

Record HdfsFile : Type := {
  filename : list byte;
  fileSys : hdfsFS;
  hfile : hdfsFile;
  LZOCompressionLevel : Z;
  LZObacklogBuffer : list byte;
  lzo_checksum : Z
}.

Definition set_hfile (this : HdfsFile) (h : hdfsFile) : HdfsFile :=
  {| filename := filename this; fileSys := fileSys this; hfile := h;
     LZOCompressionLevel := LZOCompressionLevel this;
     LZObacklogBuffer := LZObacklogBuffer this;
     lzo_checksum := lzo_checksum this |}.

Definition set_LZOCompressionLevel (this : HdfsFile) (l : Z) : HdfsFile :=
  {| filename := filename this; fileSys := fileSys this; hfile := hfile this;
     LZOCompressionLevel := l;
     LZObacklogBuffer := LZObacklogBuffer this;
     lzo_checksum := lzo_checksum this |}.

Definition set_LZObacklogBuffer (this : HdfsFile) (b : list byte) : HdfsFile :=
  {| filename := filename this; fileSys := fileSys this; hfile := hfile this;
     LZOCompressionLevel := LZOCompressionLevel this;
     LZObacklogBuffer := b;
     lzo_checksum := lzo_checksum this |}.

Definition set_lzo_checksum (this : HdfsFile) (c : Z) : HdfsFile :=
  {| filename := filename this; fileSys := fileSys this; hfile := hfile this;
     LZOCompressionLevel := LZOCompressionLevel this;
     LZObacklogBuffer := LZObacklogBuffer this;
     lzo_checksum := c |}.

Section Writer.

Variable L : lzo_library.
Variable C : libc.
Variable B : hdfs_backend.

(** *** libhdfs calls: the answer of the backend and the extended trace *)

Definition hdfsExists (tr : trace) (path : list byte) : Z * trace :=
  (hdfsExists_ret B tr path, tr ++ [CallExists path]).

Definition hdfsOpenFile (tr : trace) (path : list byte) (flags : Z)
  : hdfsFile * trace :=
  (hdfsOpenFile_ret B tr path flags, tr ++ [CallOpenFile path flags]).

Definition hdfsWrite (tr : trace) (f : hdfsFile) (buffer : list byte) (n : Z)
  : Z * trace :=
  (hdfsWrite_ret B tr f buffer n, tr ++ [CallWrite f buffer n]).

Definition hdfsCloseFile (tr : trace) (f : hdfsFile) : trace :=
  tr ++ [CallCloseFile f].

(** *** Primitive byte encoders *)

Definition LZOStringAppendChar (this : HdfsFile) (str : list byte) (c : Z)
  : HdfsFile * list byte :=
  let cc := uchar (Z.land c 255) in
  (set_lzo_checksum this (lzo_adler32 L (lzo_checksum this) [cc]),
   str ++ [cc]).

Definition int32_bytes (v : Z) : list byte :=
  [uchar (Z.land (Z.shiftr v 24) 255);
   uchar (Z.land (Z.shiftr v 16) 255);
   uchar (Z.land (Z.shiftr v 8) 255);
   uchar (Z.land (Z.shiftr v 0) 255)].

Definition LZOStringAppendInt32 (this : HdfsFile) (str : list byte) (v : Z)
  : HdfsFile * list byte :=
  let b := int32_bytes v in
  (set_lzo_checksum this (lzo_adler32 L (lzo_checksum this) b), str ++ b).

Definition int16_bytes (v : Z) : list byte :=
  [uchar (Z.shiftr v 8); uchar (Z.shiftr v 0)].

Definition LZOStringAppendInt16 (this : HdfsFile) (str : list byte) (v : Z)
  : HdfsFile * list byte :=
  let b := int16_bytes v in
  (set_lzo_checksum this (lzo_adler32 L (lzo_checksum this) b), str ++ b).

(** *** The framer *)

(** Lines 305-351: one block is compressed and its frame appended to
    [compressedData]; [None] is the path [*success = false; return data]. *)
Definition LZOCompress_frame (this : HdfsFile) (compressedData block_data : list byte)
  : option (HdfsFile * list byte) :=
  let '(r, out) :=
    if LZOCompressionLevel this =? 9
    then lzo1x_999_compress L block_data
    else lzo1x_1_compress L block_data in
  let out_len := len out in
  if negb (r =? LZO_E_OK)
     || (len block_data + len block_data / 16 + 64 + 3 <? out_len)
  then None
  else
    let '(this, compressedData) :=
      LZOStringAppendInt32 this compressedData (len block_data) in
    if out_len <? len block_data then
      let out_len32 := to_uint32 out_len in
      let '(this, compressedData) :=
        LZOStringAppendInt32 this compressedData out_len32 in
      let d_checksum := lzo_adler32 L 1 block_data in
      let '(this, compressedData) :=
        LZOStringAppendInt32 this compressedData d_checksum in
      let c_checksum := lzo_adler32 L 1 (firstn (Z.to_nat out_len32) out) in
      let '(this, compressedData) :=
        LZOStringAppendInt32 this compressedData c_checksum in
      Some (this, compressedData ++ out)
    else
      let '(this, compressedData) :=
        LZOStringAppendInt32 this compressedData (len block_data) in
      Some (this, compressedData ++ block_data).

(** Lines 295-354: [for (int i = 0; i < blocks || blocks == 0; i++)]. *)
Fixpoint LZOCompress_loop (fuel : nat) (data : list byte)
    (blocks total_data_length i : Z)
    (this : HdfsFile) (compressedData : list byte)
  : outcome (list byte * bool * HdfsFile) :=
  if (i <? blocks) || (blocks =? 0) then
    match fuel with
    | O => OutOfFuel
    | S fuel' =>
      let offset := to_int (to_size_t (to_size_t i * lzo_block_size)) in
      let data_len :=
        to_int (if blocks =? 0 then to_size_t total_data_length
                else lzo_block_size) in
      let data_len :=
        if i =? blocks
        then to_int (to_size_t (to_size_t data_len
                       + to_size_t (len data - to_size_t total_data_length)))
        else data_len in
      match substr data (to_size_t offset) (to_size_t data_len) with
      | Returns block_data =>
        match LZOCompress_frame this compressedData block_data with
        | None => Returns (data, false, this)
        | Some (this', compressedData') =>
          if blocks =? 0 then Returns (compressedData', true, this')
          else LZOCompress_loop fuel' data blocks total_data_length
                 (to_int (i + 1)) this' compressedData'
        end
      | Throws => Throws
      | OutOfFuel => OutOfFuel
      end
    end
  else Returns (compressedData, true, this).

(** [LZOCompress(inputData, force, &success)]: the returned string, the
    value left in [*success] and the writer afterwards. *)
Definition LZOCompress (this : HdfsFile) (inputData : list byte) (force : bool)
  : outcome (list byte * bool * HdfsFile) :=
  let data := c_str inputData in
  let '(data, this) :=
    if 0 <? len (LZObacklogBuffer this)
    then (LZObacklogBuffer this ++ c_str inputData,
          set_LZObacklogBuffer this [])
    else (data, this) in
  if (len data <? lzo_block_size) && negb force then
    Returns (inputData, true, set_LZObacklogBuffer this data)
  else
    let wrk_len :=
      to_uint32 (if LZOCompressionLevel this =? 9
                 then LZO1X_999_MEM_COMPRESS L
                 else LZO1X_1_MEM_COMPRESS L) in
    let blocks := to_int (len data / lzo_block_size) in
    let total_data_length :=
      to_int (to_size_t (to_size_t blocks * lzo_block_size)) in
    let total_data_length :=
      if blocks =? 0 then to_int (len data) else total_data_length in
    let out := calloc C (lzo_block_size + lzo_block_size / 16 + 64 + 3) in
    let wrkmem := calloc C wrk_len in
    if negb out || negb wrkmem then Returns (data, false, this)
    else
      LZOCompress_loop (S (Z.to_nat blocks)) data blocks total_data_length 0
        this [].

(** *** Opening *)

(** Lines 139-171: the lzop header, built from the magic with the running
    checksum restarted at 1. *)
Definition lzo_header_of (this : HdfsFile) (base_filename : list byte)
  : HdfsFile * list byte :=
  let lzo_header := lzop_magic in
  let this := set_lzo_checksum this 1 in
  let lzop_version := Z.land LZOP_VERSION 65535 in
  let '(this, lzo_header) := LZOStringAppendInt16 this lzo_header lzop_version in
  let lzop_lib_version := Z.land (lzo_version L) 65535 in
  let '(this, lzo_header) :=
    LZOStringAppendInt16 this lzo_header lzop_lib_version in
  let lzop_version_needed_to_extract := 0x0940 in
  let '(this, lzo_header) :=
    LZOStringAppendInt16 this lzo_header lzop_version_needed_to_extract in
  let '(this, lzo_header) := LZOStringAppendChar this lzo_header lzo_method in
  let '(this, lzo_header) :=
    LZOStringAppendChar this lzo_header (LZOCompressionLevel this) in
  let '(this, lzo_header) := LZOStringAppendInt32 this lzo_header lzo_flags in
  let '(this, lzo_header) := LZOStringAppendInt32 this lzo_header 436 in
  let '(this, lzo_header) := LZOStringAppendInt32 this lzo_header 0 in
  let '(this, lzo_header) := LZOStringAppendInt32 this lzo_header 0 in
  let baseFile := basename C (c_str base_filename) in
  let '(this, lzo_header) :=
    LZOStringAppendChar this lzo_header (to_int (len baseFile)) in
  let lzo_header := lzo_header ++ baseFile in
  let this :=
    set_lzo_checksum this (lzo_adler32 L (lzo_checksum this) baseFile) in
  LZOStringAppendInt32 this lzo_header (lzo_checksum this).

(** Lines 116-117; [filename.substr(0,-3)] cannot throw, its position
    being 0. *)
Definition base_filename (this : HdfsFile) : list byte :=
  if 0 <? LZOCompressionLevel this then
    match substr (filename this) 0 (to_size_t (-3)) with
    | Returns s => s
    | _ => filename this
    end
  else filename this.

Definition openWrite (this : HdfsFile) (tr : trace)
  : bool * HdfsFile * trace :=
  if fileSys this =? NULL then (false, this, tr)
  else if negb (hfile this =? NULL) then (false, this, tr)
  else
    let base_filename := base_filename this in
    let '(e, tr) := hdfsExists tr (c_str (filename this)) in
    let '(flags, this) :=
      if e =? 0 then
        (Z.lor O_WRONLY O_APPEND,
         if negb (LZOCompressionLevel this =? 0)
         then set_LZOCompressionLevel this 0 else this)
      else (O_WRONLY, this) in
    let '(h, tr) := hdfsOpenFile tr (c_str (filename this)) flags in
    let this := set_hfile this h in
    if negb (hfile this =? NULL) then
      if negb (Z.land flags O_APPEND =? 0) then (true, this, tr)
      else if negb (LZOCompressionLevel this =? 0) then
        let '(this, lzo_header) := lzo_header_of this base_filename in
        let '(bytesWritten, tr) :=
          hdfsWrite tr (hfile this) lzo_header (to_int (len lzo_header)) in
        (true, set_LZObacklogBuffer this [], tr)
      else (true, this, tr)
    else (false, this, tr).

Definition isOpen (this : HdfsFile) : bool := negb (hfile this =? NULL).

(** *** Closing *)

Definition eof : list byte := [x00; x00; x00; x00].

Definition close (this : HdfsFile) (tr : trace) : outcome (HdfsFile * trace) :=
  if negb (fileSys this =? NULL) then
    if negb (hfile this =? NULL) then
      if negb (LZOCompressionLevel this =? 0) then
        match LZOCompress this [] true with
        | Returns (clearBuf, good, this) =>
          let tr :=
            if good
            then snd (hdfsWrite tr (hfile this) clearBuf (to_int (len clearBuf)))
            else tr in
          let tr := snd (hdfsWrite tr (hfile this) eof 4) in
          let tr := hdfsCloseFile tr (hfile this) in
          Returns (set_hfile this NULL, tr)
        | Throws => Throws
        | OutOfFuel => OutOfFuel
        end
      else
        let tr := hdfsCloseFile tr (hfile this) in
        Returns (set_hfile this NULL, tr)
    else Returns (set_hfile this NULL, tr)
  else Returns (this, tr).

Definition setShouldLZOCompress (this : HdfsFile) (compressionLevel : Z)
  : HdfsFile :=
  let this := set_LZOCompressionLevel this compressionLevel in
  if negb (lzo_init L =? LZO_E_OK) then set_LZOCompressionLevel this 0
  else this.

(** *** Writing *)

Definition write (this : HdfsFile) (tr : trace) (data : list byte)
  : outcome (bool * HdfsFile * trace) :=
  let '(opened, this, tr) :=
    if negb (isOpen this) then openWrite this tr else (true, this, tr) in
  if negb opened then Returns (false, this, tr)
  else if negb (LZOCompressionLevel this =? 0) then
    match LZOCompress this data false with
    | Returns (compressedData, success, this) =>
      if negb (string_eqb compressedData data) && success then
        let '(bytesWritten, tr) :=
          hdfsWrite tr (hfile this) compressedData
            (to_int (len compressedData)) in
        Returns (bytesWritten =? to_int (len compressedData), this, tr)
      else if negb success then
        let '(bytesWritten, tr) :=
          hdfsWrite tr (hfile this) data (to_int (len data)) in
        Returns (bytesWritten =? to_int (len data), this, tr)
      else Returns (success, this, tr)
    | Throws => Throws
    | OutOfFuel => OutOfFuel
    end
  else
    let '(bytesWritten, tr) :=
      hdfsWrite tr (hfile this) data (to_int (len data)) in
    Returns (bytesWritten =? to_int (len data), this, tr).

(** *** The frames, as the format describes them *)

Definition compress (this : HdfsFile) (block : list byte) : Z * list byte :=
  if LZOCompressionLevel this =? 9
  then lzo1x_999_compress L block
  else lzo1x_1_compress L block.

(** The compressor succeeded and stayed within the worst-case expansion. *)
Definition compress_ok (this : HdfsFile) (block : list byte) : bool :=
  (fst (compress this block) =? LZO_E_OK)
  && (len (snd (compress this block)) <=? len block + len block / 16 + 64 + 3).

(** Variant (a): uncompressed length, compressed length, checksum of the
    raw block, checksum of the compressed bytes, compressed bytes. *)
Definition frame_variant_a (block out : list byte) : list byte :=
  int32_bytes (len block) ++ int32_bytes (len out)
  ++ int32_bytes (lzo_adler32 L 1 block) ++ int32_bytes (lzo_adler32 L 1 out)
  ++ out.

(** Variant (b): the uncompressed length twice, then the raw block. *)
Definition frame_variant_b (block : list byte) : list byte :=
  int32_bytes (len block) ++ int32_bytes (len block) ++ block.

Definition frame_of (this : HdfsFile) (block : list byte) : list byte :=
  let out := snd (compress this block) in
  if len out <? len block then frame_variant_a block out
  else frame_variant_b block.

(** The framer run over a list of blocks: the frames appended until the
    first failure, and the writer (its running checksum moves). *)
Fixpoint frame_blocks (this : HdfsFile) (compressedData : list byte)
    (blocks : list (list byte)) : option (list byte) * HdfsFile :=
  match blocks with
  | [] => (Some compressedData, this)
  | block :: rest =>
    match LZOCompress_frame this compressedData block with
    | None => (None, this)
    | Some (this', compressedData') => frame_blocks this' compressedData' rest
    end
  end.

Definition finish (data : list byte) (r : option (list byte) * HdfsFile)
  : outcome (list byte * bool * HdfsFile) :=
  match r with
  | (Some compressedData, this) => Returns (compressedData, true, this)
  | (None, this) => Returns (data, false, this)
  end.

(** The block the loop slices at index [k]. *)
Definition block_at (data : list byte) (k : nat) : list byte :=
  firstn (Z.to_nat lzo_block_size) (skipn (k * Z.to_nat lzo_block_size) data).

(** The blocks the loop of [LZOCompress] slices out of [data] (for data
    below 2^31 bytes, where the [int] conversions are exact): the whole of
    a short input, and otherwise [len data / lzo_block_size] blocks of
    [lzo_block_size] bytes. *)
Definition framer_blocks (data : list byte) : list (list byte) :=
  let blocks := len data / lzo_block_size in
  if blocks =? 0 then [data]
  else map (block_at data) (seq 0 (Z.to_nat blocks)).

Definition buffers_allocated (this : HdfsFile) : bool :=
  calloc C (lzo_block_size + lzo_block_size / 16 + 64 + 3)
  && calloc C (to_uint32 (if LZOCompressionLevel this =? 9
                          then LZO1X_999_MEM_COMPRESS L
                          else LZO1X_1_MEM_COMPRESS L)).

(** The fields the header encoders append after the magic, in order; the
    base name is appended and summed without an encoder. *)
Definition header_fields (this : HdfsFile) (base_filename : list byte)
  : list (list byte) :=
  let baseFile := basename C (c_str base_filename) in
  [int16_bytes (Z.land LZOP_VERSION 65535);
   int16_bytes (Z.land (lzo_version L) 65535);
   int16_bytes 0x0940;
   [uchar (Z.land lzo_method 255)];
   [uchar (Z.land (LZOCompressionLevel this) 255)];
   int32_bytes lzo_flags;
   int32_bytes 436;
   int32_bytes 0;
   int32_bytes 0;
   [uchar (Z.land (to_int (len baseFile)) 255)];
   baseFile].

End Writer.

(** ** Reference instances of the collaborators

    Used to run the writer on concrete inputs. *)

(** Adler-32 as zlib and LZO define it. *)
Definition adler32 (adler : Z) (buf : list byte) : Z :=
  let step (s : Z * Z) (c : byte) :=
    let a := (fst s + Z.of_N (Byte.to_N c)) mod 65521 in
    (a, (snd s + a) mod 65521) in
  let '(a, b) :=
    fold_left step buf
      (Z.land adler 65535, Z.land (Z.shiftr adler 16) 65535) in
  Z.lor (Z.shiftl b 16) a.

(** A compressor that finds nothing to compress: the block as one literal
    run, followed by the end-of-stream marker. *)
Definition stored_compress (block : list byte) : Z * list byte :=
  (LZO_E_OK, block ++ [x11; x00; x00]).

(** A run-length compressor: (count, byte) pairs, counts up to 255. *)
Fixpoint run_length (s : list byte) : list (Z * byte) :=
  match s with
  | [] => []
  | c :: s' =>
    match run_length s' with
    | (n, c') :: r =>
      if Byte.eqb c c' && (n <? 255) then (n + 1, c') :: r
      else (1, c) :: (n, c') :: r
    | [] => [(1, c)]
    end
  end.

Definition run_length_compress (block : list byte) : Z * list byte :=
  (LZO_E_OK, flat_map (fun p => [uchar (fst p); snd p]) (run_length block)).

(** A compressor that reports [LZO_E_ERROR]. *)
Definition failing_compress (block : list byte) : Z * list byte := (-1, []).

Definition lzo_with (compress1 : list byte -> Z * list byte) : lzo_library :=
  {| lzo1x_1_compress := compress1;
     lzo1x_999_compress := run_length_compress;
     lzo_adler32 := adler32;
     lzo_version := 0x2030;
     lzo_init := LZO_E_OK;
     LZO1X_1_MEM_COMPRESS := 131072;
     LZO1X_999_MEM_COMPRESS := 458752 |}.

Definition last_component (s : list byte) : list byte :=
  fold_left (fun acc c => if Byte.eqb c x2f then [] else acc ++ [c]) s [].

Definition libc_with (alloc : bool) : libc :=
  {| basename := last_component; calloc := fun _ => alloc |}.

Definition opens (path : list byte) (c : hdfs_call) : bool :=
  match c with
  | CallOpenFile p _ => string_eqb p path
  | _ => false
  end.

(** A backend holding the files [existing] and those opened so far;
    [hdfsOpenFile] answers [handle] and every write is acknowledged in
    full. *)
Definition backend_with (existing : list (list byte)) (handle : hdfsFile)
  : hdfs_backend :=
  {| hdfsExists_ret := fun tr path =>
       if existsb (string_eqb path) existing || existsb (opens path) tr
       then 0 else -1;
     hdfsOpenFile_ret := fun _ _ _ => handle;
     hdfsWrite_ret := fun _ _ _ n => n |}.

(** The name [/log/f.lzo]. *)
Definition log_name : list byte :=
  [x2f; x6c; x6f; x67; x2f; x66; x2e; x6c; x7a; x6f].

(** A writer on [log_name]: connected, with the given handle, compression
    level and backlog. *)
Definition writer_with (handle : hdfsFile) (level : Z) (backlog : list byte)
  : HdfsFile :=
  {| filename := log_name; fileSys := 1; hfile := handle;
     LZOCompressionLevel := level; LZObacklogBuffer := backlog;
     lzo_checksum := 0 |}.

(** [write(data)] followed by [close()]. *)
Definition write_then_close (L : lzo_library) (C : libc) (B : hdfs_backend)
    (this : HdfsFile) (tr : trace) (data : list byte)
  : outcome (bool * HdfsFile * trace) :=
  match write L C B this tr data with
  | Returns (ok, this, tr) =>
    match close L C B this tr with
    | Returns (this, tr) => Returns (ok, this, tr)
    | Throws => Throws
    | OutOfFuel => OutOfFuel
    end
  | Throws => Throws
  | OutOfFuel => OutOfFuel
  end.

(** Decidable equality of what the operations return, to compare the
    result of a run with the expected one by evaluation. *)
Definition string_eq_dec : forall a b : list byte, {a = b} + {a <> b} :=
  list_eq_dec Byte.byte_eq_dec.

Definition hdfs_call_eq_dec (a b : hdfs_call) : {a = b} + {a <> b}.
Proof.
  decide equality; try apply Z.eq_dec; apply string_eq_dec.
Defined.

Definition HdfsFile_eq_dec (a b : HdfsFile) : {a = b} + {a <> b}.
Proof.
  decide equality; try apply Z.eq_dec; apply string_eq_dec.
Defined.

Definition result_eq_dec (a b : outcome (bool * HdfsFile * trace))
  : {a = b} + {a <> b}.
Proof.
  decide equality.
  decide equality; [apply (list_eq_dec hdfs_call_eq_dec)|].
  decide equality; [apply HdfsFile_eq_dec | apply bool_dec].
Defined.

Definition same_result (a b : outcome (bool * HdfsFile * trace)) : bool :=
  if result_eq_dec a b then true else false.

Definition same_blocks (a b : list (list byte)) : bool :=
  if list_eq_dec string_eq_dec a b then true else false.

(** One block of ['A'] and one byte more. *)
Definition block_and_a_byte : list byte :=
  repeat x41 (Z.to_nat (lzo_block_size + 1)).

(** One byte less than a block, of ['b']. *)
Definition block_less_a_byte : list byte :=
  repeat x62 (Z.to_nat (lzo_block_size - 1)).

(** ** The rest of the file interface *)

(** The value of a big-endian field. *)
Definition be_value (field : list byte) : Z :=
  fold_left (fun acc b => acc * 256 + Z.of_N (Byte.to_N b)) field 0.

Definition O_RDONLY : Z := 0.

Definition openRead (B : hdfs_backend) (this : HdfsFile) (tr : trace)
  : bool * HdfsFile * trace :=
  let '(this, tr) :=
    if negb (fileSys this =? NULL) then
      let '(h, tr) := hdfsOpenFile B tr (c_str (filename this)) O_RDONLY in
      (set_hfile this h, tr)
    else (this, tr) in
  if negb (hfile this =? NULL) then (true, this, tr) else (false, this, tr).

(** [strncmp(a, b, n)] on C strings held as the bytes before their NUL. *)
Fixpoint strncmp (a b : list byte) (n : nat) : Z :=
  match n with
  | O => 0
  | S n' =>
    let ca := hd x00 a in
    let cb := hd x00 b in
    if Byte.eqb ca cb then
      if Byte.eqb ca x00 then 0 else strncmp (tl a) (tl b) n'
    else Z.of_N (Byte.to_N ca) - Z.of_N (Byte.to_N cb)
  end.

(** [strchr(s, c) - s], when [strchr] finds [c]. *)
Fixpoint strchr (s : list byte) (c : byte) : option nat :=
  match s with
  | [] => None
  | x :: s' => if Byte.eqb x c then Some O else option_map S (strchr s' c)
  end.

(** [rindex(s, c)]: the string from the last [c] on. *)
Fixpoint rindex (s : list byte) (c : byte) : option (list byte) :=
  match s with
  | [] => None
  | x :: s' =>
    match rindex s' c with
    | Some r => Some r
    | None => if Byte.eqb x c then Some (x :: s') else None
    end
  end.

(** ["hdfs://"] and ["default"] *)
Definition proto : list byte := [x68; x64; x66; x73; x3a; x2f; x2f].
Definition default_cluster : list byte := [x64; x65; x66; x61; x75; x6c; x74].

(** [std::numeric_limits<tPort>::max()], [tPort] being the [uint16_t] of
    libhdfs. *)
Definition tPort_max : Z := 65535.

Section Connection.

(** libhdfs's [hdfsConnectNewInstance] and libc's [strtol(s, &endptr, 10)]
    (the value only). *)
Variable hdfsConnectNewInstance : list byte -> Z -> hdfsFS.
Variable strtol : list byte -> Z.

(** [connectToPath(uri)]; [malloc] for the host name is taken to succeed,
    as the code takes it. *)
Definition connectToPath (uri : list byte) : hdfsFS :=
  let uri := c_str uri in
  if negb (strncmp proto uri (length proto) =? 0) then
    hdfsConnectNewInstance default_cluster 0
  else
    let uri := skipn (length proto) uri in
    match strchr uri x3a with
    | None => NULL
    | Some colon =>
      if Byte.eqb (nth (S colon) uri x00) x00 then NULL
      else
        let port := strtol (skipn (S colon) uri) in
        if port <? 0 then NULL
        else if tPort_max <? port then NULL
        else
          let host := firstn colon uri in
          hdfsConnectNewInstance host port
    end.

(** The constructor; it leaves [LZOCompressionLevel] and [lzo_checksum]
    as they happen to be. *)
Definition HdfsFile_ctor (name : list byte) (level checksum : Z) : HdfsFile :=
  {| filename := name;
     fileSys := connectToPath name;
     hfile := NULL;
     LZOCompressionLevel := level;
     LZObacklogBuffer := [];
     lzo_checksum := checksum |}.

Variable L : lzo_library.
Variable C : libc.
Variable B : hdfs_backend.

(** [createSymlink(oldpath, newpath)]: the returned value and the trace;
    [level] and [checksum] are what the new object's members hold. *)
Definition createSymlink (oldpath newpath : list byte) (level checksum : Z)
    (tr : trace) : outcome (bool * trace) :=
  let link := HdfsFile_ctor newpath level checksum in
  let '(opened, link, tr) := openWrite L C B link tr in
  if negb opened then Returns (false, tr)
  else
    match write L C B link tr oldpath with
    | Returns (ok, link, tr) =>
      if negb ok then Returns (false, tr)
      else
        match close L C B link tr with
        | Returns (link, tr) => Returns (true, tr)
        | Throws => Throws
        | OutOfFuel => OutOfFuel
        end
    | Throws => Throws
    | OutOfFuel => OutOfFuel
    end.

End Connection.

(** [listImpl(path, _return)]: the vector afterwards.  [hdfsListDirectory]
    answers the [mName] of the entries, or nothing. *)
Definition listImpl (B : hdfs_backend)
    (hdfsListDirectory : list byte -> option (list (list byte)))
    (this : HdfsFile) (tr : trace) (path : list byte)
    (_return : list (list byte)) : list (list byte) * trace :=
  if fileSys this =? NULL then (_return, tr)
  else
    let '(value, tr) := hdfsExists B tr (c_str path) in
    if value =? 0 then
      match hdfsListDirectory (c_str path) with
      | Some entries =>
        (fold_left
           (fun acc pathname =>
              match rindex (c_str pathname) x2f with
              | Some filename => acc ++ [tl filename]
              | None => acc
              end)
           entries _return,
         tr)
      | None => (_return, tr)
      end
    else (_return, tr).

(** A caller of the writer: the calls it makes, in order. *)
Inductive operation : Type :=
| DoOpenWrite
| DoWrite (data : list byte)
| DoClose
| DoSetShouldLZOCompress (compressionLevel : Z).

Definition step (L : lzo_library) (C : libc) (B : hdfs_backend)
    (this : HdfsFile) (tr : trace) (o : operation)
  : outcome (HdfsFile * trace) :=
  match o with
  | DoOpenWrite =>
    let '(_, this, tr) := openWrite L C B this tr in Returns (this, tr)
  | DoWrite data =>
    match write L C B this tr data with
    | Returns (_, this, tr) => Returns (this, tr)
    | Throws => Throws
    | OutOfFuel => OutOfFuel
    end
  | DoClose => close L C B this tr
  | DoSetShouldLZOCompress level =>
    Returns (setShouldLZOCompress L this level, tr)
  end.

Fixpoint run (L : lzo_library) (C : libc) (B : hdfs_backend)
    (this : HdfsFile) (tr : trace) (ops : list operation)
  : outcome (HdfsFile * trace) :=
  match ops with
  | [] => Returns (this, tr)
  | o :: ops' =>
    match step L C B this tr o with
    | Returns (this, tr) => run L C B this tr ops'
    | Throws => Throws
    | OutOfFuel => OutOfFuel
    end
  end.

(** The writes of a call sequence leave room for a block in an [int]. *)
Definition operation_fits (o : operation) : bool :=
  match o with
  | DoWrite data => len (c_str data) <? 2 ^ 31 - lzo_block_size
  | _ => true
  end.

(** A call on an open handle, which passes the length of its buffer. *)
Definition sound_call (c : hdfs_call) : bool :=
  match c with
  | CallWrite f buffer length =>
    negb (f =? NULL) && (length =? to_int (len buffer))
  | CallCloseFile f => negb (f =? NULL)
  | _ => true
  end.

(** No [hdfsWrite] comes before the first [hdfsOpenFile]. *)
Fixpoint no_write_before_open (t : trace) : bool :=
  match t with
  | [] => true
  | CallOpenFile _ _ :: _ => true
  | CallWrite _ _ _ :: _ => false
  | _ :: t' => no_write_before_open t'
  end.

(** A [strtol] for unsigned decimal numbers, and a cluster that answers
    every connection with the handle 5. *)
Fixpoint decimal (s : list byte) (acc : Z) : Z :=
  match s with
  | [] => acc
  | c :: s' =>
    let n := Z.of_N (Byte.to_N c) in
    if (48 <=? n) && (n <=? 57) then decimal s' (acc * 10 + (n - 48))
    else acc
  end.

Definition strtol_decimal (s : list byte) : Z := decimal s 0.

Definition connect_always (host : list byte) (port : Z) : hdfsFS := 5.

(** A cluster that refuses every connection. *)
Definition connect_never (host : list byte) (port : Z) : hdfsFS := NULL.

(** ** Integer conversions and strings *)

Lemma to_int_small (z : Z) : - 2 ^ 31 <= z < 2 ^ 31 -> to_int z = z.
Proof.
  intros H. unfold to_int. rewrite Z.mod_small; lia.
Qed.

Lemma to_size_t_small (z : Z) : 0 <= z < 2 ^ 64 -> to_size_t z = z.
Proof.
  intros H. unfold to_size_t. now rewrite Z.mod_small.
Qed.

Lemma to_uint32_small (z : Z) : 0 <= z < 2 ^ 32 -> to_uint32 z = z.
Proof.
  intros H. unfold to_uint32. now rewrite Z.mod_small.
Qed.

Lemma len_nonneg (s : list byte) : 0 <= len s.
Proof. unfold len. lia. Qed.

Lemma len_nil_inv (s : list byte) : len s <= 0 -> s = [].
Proof.
  destruct s; [reflexivity|]. unfold len. simpl length. lia.
Qed.

Lemma firstn_len (s : list byte) : firstn (Z.to_nat (len s)) s = s.
Proof.
  unfold len. rewrite Nat2Z.id. apply firstn_all.
Qed.

Lemma string_eqb_refl (s : list byte) : string_eqb s s = true.
Proof.
  unfold string_eqb. destruct (list_eq_dec Byte.byte_eq_dec s s); congruence.
Qed.

Lemma string_eqb_eq (a b : list byte) : string_eqb a b = true <-> a = b.
Proof.
  unfold string_eqb. destruct (list_eq_dec Byte.byte_eq_dec a b);
    split; congruence.
Qed.

(** A string without NUL is its own C string. *)
Lemma c_str_no_nul (s : list byte) :
  forallb (fun c => negb (Byte.eqb c x00)) s = true -> c_str s = s.
Proof.
  induction s as [|c s IH]; simpl; [reflexivity|].
  intros H. apply andb_true_iff in H as [Hc Hs].
  destruct (Byte.eqb c x00); [discriminate|]. now rewrite IH.
Qed.

Lemma same_result_eq (a b : outcome (bool * HdfsFile * trace)) :
  same_result a b = true -> a = b.
Proof.
  unfold same_result. destruct (result_eq_dec a b); [auto | discriminate].
Qed.

(** A closed run is compared with its expected result by evaluation. *)
Ltac by_evaluation := apply same_result_eq; vm_compute; reflexivity.

Lemma same_blocks_eq (a b : list (list byte)) :
  same_blocks a b = true -> a = b.
Proof.
  unfold same_blocks.
  destruct (list_eq_dec string_eq_dec a b); [auto | discriminate].
Qed.

(** ** The framer *)

Section FramerFacts.

Variable L : lzo_library.
Variable C : libc.

Lemma set_LZObacklogBuffer_same (this : HdfsFile) :
  set_LZObacklogBuffer this (LZObacklogBuffer this) = this.
Proof. now destruct this. Qed.

(** One block whose compression succeeded: its frame is appended. *)
Lemma LZOCompress_frame_ok (this : HdfsFile) (cd block : list byte) :
  len block < 2 ^ 32 ->
  compress_ok L this block = true ->
  exists ck,
    LZOCompress_frame L this cd block
    = Some (set_lzo_checksum this ck, cd ++ frame_of L this block).
Proof.
  intros Hlen Hok. unfold compress_ok, frame_of, compress in *.
  unfold LZOCompress_frame.
  destruct (if LZOCompressionLevel this =? 9
            then lzo1x_999_compress L block
            else lzo1x_1_compress L block) as [r out] eqn:E.
  simpl fst in *. simpl snd in *.
  apply andb_true_iff in Hok as [Hr Hb].
  rewrite Hr. apply Z.leb_le in Hb.
  replace (len block + len block / 16 + 64 + 3 <? len out) with false
    by (symmetry; apply Z.ltb_ge; exact Hb).
  simpl. unfold LZOStringAppendInt32.
  destruct (len out <? len block) eqn:Hlt.
  - apply Z.ltb_lt in Hlt.
    rewrite to_uint32_small by (pose proof (len_nonneg out); lia).
    rewrite firstn_len. eexists.
    unfold frame_variant_a. rewrite <- !app_assoc. reflexivity.
  - eexists. unfold frame_variant_b. rewrite <- !app_assoc. reflexivity.
Qed.

(** One block whose compression failed: nothing is appended. *)
Lemma LZOCompress_frame_fail (this : HdfsFile) (cd block : list byte) :
  compress_ok L this block = false ->
  LZOCompress_frame L this cd block = None.
Proof.
  intros Hok. unfold compress_ok, compress in Hok. unfold LZOCompress_frame.
  destruct (if LZOCompressionLevel this =? 9
            then lzo1x_999_compress L block
            else lzo1x_1_compress L block) as [r out] eqn:E.
  simpl fst in *. simpl snd in *.
  apply andb_false_iff in Hok as [Hr | Hb].
  - now rewrite Hr.
  - apply Z.leb_gt in Hb. apply Z.ltb_lt in Hb. rewrite Hb.
    now rewrite orb_true_r.
Qed.

(** Framing moves nothing of the writer but its running checksum. *)
Lemma LZOCompress_frame_state (this this' : HdfsFile) (cd cd' block : list byte) :
  LZOCompress_frame L this cd block = Some (this', cd') ->
  this' = set_lzo_checksum this (lzo_checksum this').
Proof.
  unfold LZOCompress_frame.
  destruct (if LZOCompressionLevel this =? 9
            then lzo1x_999_compress L block
            else lzo1x_1_compress L block) as [r out].
  destruct (negb (r =? LZO_E_OK)
            || (len block + len block / 16 + 64 + 3 <? len out));
    [discriminate|].
  unfold LZOStringAppendInt32.
  destruct (len out <? len block); intros H; inversion H; reflexivity.
Qed.

Lemma LZOCompress_frame_some (this : HdfsFile) (cd block : list byte) :
  compress_ok L this block = true ->
  exists ck cd',
    LZOCompress_frame L this cd block = Some (set_lzo_checksum this ck, cd').
Proof.
  intros Hok.
  destruct (LZOCompress_frame L this cd block) as [[this' cd']|] eqn:E.
  - exists (lzo_checksum this'), cd'.
    now rewrite <- (LZOCompress_frame_state _ _ _ _ _ E).
  - exfalso. revert E. unfold compress_ok, compress in Hok.
    unfold LZOCompress_frame.
    destruct (if LZOCompressionLevel this =? 9
              then lzo1x_999_compress L block
              else lzo1x_1_compress L block) as [r out].
    simpl fst in *. simpl snd in *.
    apply andb_true_iff in Hok as [Hr Hb]. rewrite Hr.
    apply Z.leb_le in Hb.
    replace (len block + len block / 16 + 64 + 3 <? len out) with false
      by (symmetry; apply Z.ltb_ge; exact Hb).
    simpl. unfold LZOStringAppendInt32.
    destruct (len out <? len block); discriminate.
Qed.

Lemma set_lzo_checksum_same (this : HdfsFile) :
  set_lzo_checksum this (lzo_checksum this) = this.
Proof. now destruct this. Qed.

(** Every block compresses: the frames of all of them, in order. *)
Lemma frame_blocks_ok (blocks : list (list byte)) :
  forall (this : HdfsFile) (cd : list byte),
    Forall (fun b => len b < 2 ^ 32) blocks ->
    forallb (compress_ok L this) blocks = true ->
    exists ck,
      frame_blocks L this cd blocks
      = (Some (cd ++ flat_map (frame_of L this) blocks),
         set_lzo_checksum this ck).
Proof.
  induction blocks as [|b bl IH]; intros this cd Hlen Hok.
  - exists (lzo_checksum this). simpl.
    now rewrite app_nil_r, set_lzo_checksum_same.
  - simpl in Hok. apply andb_true_iff in Hok as [Hb Hbl].
    inversion Hlen as [|? ? Hlb Hlbl]; subst.
    destruct (LZOCompress_frame_ok this cd b Hlb Hb) as [ck E].
    simpl. rewrite E.
    destruct (IH (set_lzo_checksum this ck) (cd ++ frame_of L this b) Hlbl Hbl)
      as [ck' E'].
    exists ck'. rewrite E'. now rewrite <- app_assoc.
Qed.

(** Some block does not compress: no output, whatever was framed before. *)
Lemma frame_blocks_fail (blocks : list (list byte)) :
  forall (this : HdfsFile) (cd : list byte),
    forallb (compress_ok L this) blocks = false ->
    exists ck, frame_blocks L this cd blocks = (None, set_lzo_checksum this ck).
Proof.
  induction blocks as [|b bl IH]; intros this cd Hok; [discriminate|].
  simpl in Hok. simpl.
  destruct (compress_ok L this b) eqn:Hb.
  - destruct (LZOCompress_frame_some this cd b Hb) as (ck & cd' & E).
    rewrite E. destruct (IH (set_lzo_checksum this ck) cd' Hok) as [ck' E'].
    exists ck'. exact E'.
  - rewrite (LZOCompress_frame_fail this cd b Hb).
    exists (lzo_checksum this). now rewrite set_lzo_checksum_same.
Qed.

Lemma LZOCompress_loop_eq (fuel : nat) (data : list byte)
    (blocks total i : Z) (this : HdfsFile) (cd : list byte) :
  LZOCompress_loop L fuel data blocks total i this cd
  = if (i <? blocks) || (blocks =? 0) then
      match fuel with
      | O => OutOfFuel
      | S fuel' =>
        let offset := to_int (to_size_t (to_size_t i * lzo_block_size)) in
        let data_len :=
          to_int (if blocks =? 0 then to_size_t total else lzo_block_size) in
        let data_len :=
          if i =? blocks
          then to_int (to_size_t (to_size_t data_len
                         + to_size_t (len data - to_size_t total)))
          else data_len in
        match substr data (to_size_t offset) (to_size_t data_len) with
        | Returns block_data =>
          match LZOCompress_frame L this cd block_data with
          | None => Returns (data, false, this)
          | Some (this', cd') =>
            if blocks =? 0 then Returns (cd', true, this')
            else LZOCompress_loop L fuel' data blocks total
                   (to_int (i + 1)) this' cd'
          end
        | Throws => Throws
        | OutOfFuel => OutOfFuel
        end
      end
    else Returns (cd, true, this).
Proof. destruct fuel; reflexivity. Qed.

Lemma lzo_block_size_val : lzo_block_size = 262144.
Proof. reflexivity. Qed.

Opaque lzo_block_size.

(** The loop over full blocks, from index [k] on: it slices [block_at] and
    stops after the last full block. *)
Lemma LZOCompress_loop_blocks (data : list byte) (blocks total : Z) :
  0 < blocks -> blocks * lzo_block_size <= len data -> len data < 2 ^ 31 ->
  forall (n k fuel : nat) (this : HdfsFile) (cd : list byte),
    (n <= fuel)%nat -> Z.of_nat (k + n) = blocks ->
    LZOCompress_loop L fuel data blocks total (Z.of_nat k) this cd
    = finish data (frame_blocks L this cd (map (block_at data) (seq k n))).
Proof.
  intros Hpos Hfit Hint. pose proof lzo_block_size_val as Hbs.
  induction n as [|n IH]; intros k fuel this cd Hfuel Hk.
  - rewrite LZOCompress_loop_eq.
    replace (Z.of_nat k <? blocks) with false by (symmetry; apply Z.ltb_ge; lia).
    replace (blocks =? 0) with false by (symmetry; apply Z.eqb_neq; lia).
    reflexivity.
  - rewrite LZOCompress_loop_eq.
    replace (Z.of_nat k <? blocks) with true by (symmetry; apply Z.ltb_lt; lia).
    replace (blocks =? 0) with false by (symmetry; apply Z.eqb_neq; lia).
    replace (Z.of_nat k =? blocks) with false by (symmetry; apply Z.eqb_neq; lia).
    destruct fuel as [|fuel]; [lia|].
    cbv zeta. simpl orb. cbv iota.
    assert (Hk1 : 0 <= Z.of_nat k * lzo_block_size < 2 ^ 31) by nia.
    rewrite (to_size_t_small (Z.of_nat k)) by lia.
    rewrite (to_size_t_small (Z.of_nat k * lzo_block_size)) by lia.
    rewrite (to_int_small (Z.of_nat k * lzo_block_size)) by lia.
    rewrite (to_size_t_small (Z.of_nat k * lzo_block_size)) by lia.
    rewrite (to_int_small lzo_block_size) by (rewrite Hbs; lia).
    rewrite (to_size_t_small lzo_block_size) by (rewrite Hbs; lia).
    unfold substr.
    replace (len data <? Z.of_nat k * lzo_block_size) with false
      by (symmetry; apply Z.ltb_ge; nia).
    rewrite Z.min_l by nia.
    replace (Z.to_nat (Z.of_nat k * lzo_block_size))
      with (k * Z.to_nat lzo_block_size)%nat
      by (rewrite Z2Nat.inj_mul, Nat2Z.id by lia; reflexivity).
    change (firstn (Z.to_nat lzo_block_size)
              (skipn (k * Z.to_nat lzo_block_size) data))
      with (block_at data k).
    simpl seq. simpl map. simpl frame_blocks.
    destruct (LZOCompress_frame L this cd (block_at data k))
      as [[this' cd']|]; [|reflexivity].
    rewrite (to_int_small (Z.of_nat k + 1)) by lia.
    replace (Z.of_nat k + 1) with (Z.of_nat (S k)) by lia.
    apply IH; lia.
Qed.

(** The loop on an input shorter than a block: the whole input is the one
    block. *)
Lemma LZOCompress_loop_single (data : list byte) (fuel : nat)
    (this : HdfsFile) (cd : list byte) :
  len data < 2 ^ 31 ->
  LZOCompress_loop L (S fuel) data 0 (len data) 0 this cd
  = finish data (frame_blocks L this cd [data]).
Proof.
  intros Hint. pose proof (len_nonneg data) as Hnn.
  rewrite LZOCompress_loop_eq.
  change ((0 <? 0) || (0 =? 0)) with true.
  change (0 =? 0) with true. cbv zeta. cbv iota.
  rewrite (to_size_t_small 0) by lia. rewrite Z.mul_0_l.
  rewrite (to_size_t_small 0) by lia. rewrite (to_int_small 0) by lia.
  rewrite (to_size_t_small 0) by lia.
  rewrite (to_size_t_small (len data)) by lia.
  rewrite (to_int_small (len data)) by lia.
  rewrite (to_size_t_small (len data)) by lia.
  rewrite Z.sub_diag. rewrite (to_size_t_small 0) by lia.
  rewrite Z.add_0_r.
  rewrite (to_size_t_small (len data)) by lia.
  rewrite (to_int_small (len data)) by lia.
  rewrite (to_size_t_small (len data)) by lia.
  unfold substr.
  replace (len data <? 0) with false by (symmetry; apply Z.ltb_ge; lia).
  rewrite Z.min_l by lia.
  change (Z.to_nat 0) with 0%nat. rewrite skipn_O, firstn_len.
  simpl frame_blocks.
  destruct (LZOCompress_frame L this cd data) as [[this' cd']|]; reflexivity.
Qed.

Lemma to_int_range (z : Z) : - 2 ^ 31 <= to_int z < 2 ^ 31.
Proof.
  unfold to_int. pose proof (Z.mod_pos_bound (z + 2 ^ 31) (2 ^ 32)). lia.
Qed.

(** The loop stops within the fuel [LZOCompress] gives it. *)
Lemma LZOCompress_loop_terminates (data : list byte) (blocks total : Z) :
  blocks < 2 ^ 31 ->
  forall (fuel : nat) (i : Z) (this : HdfsFile) (cd : list byte),
    - 2 ^ 31 <= i -> (Z.to_nat (blocks - i) < fuel)%nat ->
    LZOCompress_loop L fuel data blocks total i this cd <> OutOfFuel.
Proof.
  intros Hb. induction fuel as [|fuel IH]; intros i this cd Hi Hfuel; [lia|].
  rewrite LZOCompress_loop_eq.
  destruct ((i <? blocks) || (blocks =? 0)) eqn:Hc; [|discriminate].
  cbv zeta.
  match goal with |- context [substr ?d ?p ?n] =>
    destruct (substr d p n) as [block| |] eqn:Hs end; [|discriminate|].
  - match goal with |- context [LZOCompress_frame ?l ?t ?c ?b] =>
      destruct (LZOCompress_frame l t c b) as [[this' cd']|] end;
      [|discriminate].
    destruct (blocks =? 0) eqn:Hz; [discriminate|].
    rewrite orb_false_r in Hc. apply Z.ltb_lt in Hc.
    rewrite (to_int_small (i + 1)) by lia.
    apply IH; lia.
  - unfold substr in Hs.
    match type of Hs with (if ?c then _ else _) = _ => destruct c end;
      discriminate.
Qed.

(** Below the block size and not forced: the input is queued. *)
Lemma LZOCompress_decline (this : HdfsFile) (inputData : list byte) :
  len (LZObacklogBuffer this ++ c_str inputData) < lzo_block_size ->
  LZOCompress L C this inputData false
  = Returns (inputData, true,
             set_LZObacklogBuffer this
               (LZObacklogBuffer this ++ c_str inputData)).
Proof.
  intros Hlt. unfold LZOCompress.
  destruct (0 <? len (LZObacklogBuffer this)) eqn:Hb.
  - apply Z.ltb_lt in Hlt. rewrite Hlt. reflexivity.
  - apply Z.ltb_ge in Hb. apply len_nil_inv in Hb. rewrite Hb in *.
    simpl app in *. apply Z.ltb_lt in Hlt. rewrite Hlt. reflexivity.
Qed.

(** The common start of the consuming paths: the backlog is prepended and
    cleared. *)
Lemma LZOCompress_consume_eq (this : HdfsFile) (inputData : list byte)
    (force : bool) :
  let data := LZObacklogBuffer this ++ c_str inputData in
  force = true \/ lzo_block_size <= len data ->
  LZOCompress L C this inputData force
  = if negb (buffers_allocated L C this)
    then Returns (data, false, set_LZObacklogBuffer this [])
    else
      let blocks := to_int (len data / lzo_block_size) in
      LZOCompress_loop L (S (Z.to_nat blocks)) data blocks
        (if blocks =? 0 then to_int (len data)
         else to_int (to_size_t (to_size_t blocks * lzo_block_size)))
        0 (set_LZObacklogBuffer this []) [].
Proof.
  intros data Hc. unfold LZOCompress.
  assert (E : (if 0 <? len (LZObacklogBuffer this)
               then (LZObacklogBuffer this ++ c_str inputData,
                     set_LZObacklogBuffer this [])
               else (c_str inputData, this))
              = (data, set_LZObacklogBuffer this [])).
  { destruct (0 <? len (LZObacklogBuffer this)) eqn:Hb; [reflexivity|].
    apply Z.ltb_ge in Hb. apply len_nil_inv in Hb. subst data.
    rewrite Hb. simpl app. f_equal.
    rewrite <- Hb. now rewrite set_LZObacklogBuffer_same. }
  rewrite E. clear E.
  replace ((len data <? lzo_block_size) && negb force) with false.
  2:{ symmetry. destruct Hc as [-> | Hc]; [apply andb_false_r|].
      apply andb_false_iff. left. now apply Z.ltb_ge. }
  unfold buffers_allocated.
  change (LZOCompressionLevel (set_LZObacklogBuffer this []))
    with (LZOCompressionLevel this).
  rewrite negb_andb. reflexivity.
Qed.

(** The framer on an input it consumes, below 2^31 bytes, with its work
    buffers allocated: the blocks of [framer_blocks] are framed in order. *)
Lemma LZOCompress_consume (this : HdfsFile) (inputData : list byte)
    (force : bool) :
  let data := LZObacklogBuffer this ++ c_str inputData in
  len data < 2 ^ 31 ->
  force = true \/ lzo_block_size <= len data ->
  buffers_allocated L C this = true ->
  LZOCompress L C this inputData force
  = finish data
      (frame_blocks L (set_LZObacklogBuffer this []) [] (framer_blocks data)).
Proof.
  intros data Hint Hc Hmem. pose proof lzo_block_size_val as Hbs.
  pose proof (len_nonneg data) as Hnn.
  rewrite LZOCompress_consume_eq by exact Hc. fold data.
  rewrite Hmem. simpl negb. cbv iota. cbv zeta.
  assert (Hq : 0 <= len data / lzo_block_size < 2 ^ 31).
  { rewrite Hbs. split; [apply Z.div_pos; lia|].
    apply Z.div_lt_upper_bound; lia. }
  rewrite (to_int_small (len data / lzo_block_size)) by lia.
  unfold framer_blocks.
  destruct (len data / lzo_block_size =? 0) eqn:Hz.
  - apply Z.eqb_eq in Hz. rewrite Hz.
    rewrite (to_int_small (len data)) by lia.
    apply LZOCompress_loop_single. exact Hint.
  - apply Z.eqb_neq in Hz.
    change 0 with (Z.of_nat 0) at 1.
    apply (LZOCompress_loop_blocks data (len data / lzo_block_size) _);
      try lia.
    rewrite Hbs. pose proof (Z.mul_div_le (len data) 262144). lia.
Qed.

(** The loop moves nothing of the writer but its running checksum. *)
Lemma LZOCompress_loop_state (data : list byte) (blocks total : Z) :
  forall (fuel : nat) (i : Z) (this : HdfsFile) (cd out : list byte)
         (ok : bool) (this' : HdfsFile),
    LZOCompress_loop L fuel data blocks total i this cd
    = Returns (out, ok, this') ->
    this' = set_lzo_checksum this (lzo_checksum this').
Proof.
  induction fuel as [|fuel IH]; intros i this cd out ok this';
    rewrite LZOCompress_loop_eq;
    destruct ((i <? blocks) || (blocks =? 0));
    try discriminate;
    try (intros H; inversion H; subst;
         symmetry; apply set_lzo_checksum_same).
  cbv zeta.
  match goal with |- context [substr ?d ?p ?n] =>
    destruct (substr d p n) as [block| |] end; try discriminate.
  destruct (LZOCompress_frame L this cd block) as [[this1 cd1]|] eqn:E.
  - apply LZOCompress_frame_state in E.
    destruct (blocks =? 0).
    + intros H. inversion H; subst. exact E.
    + intros H. apply IH in H. rewrite H. rewrite E. reflexivity.
  - intros H. inversion H; subst. symmetry. apply set_lzo_checksum_same.
Qed.

(** [LZOCompress] touches the backlog and the running checksum only. *)
Lemma LZOCompress_state (this : HdfsFile) (inputData : list byte)
    (force : bool) (out : list byte) (ok : bool) (this' : HdfsFile) :
  LZOCompress L C this inputData force = Returns (out, ok, this') ->
  this' = set_lzo_checksum
            (set_LZObacklogBuffer this (LZObacklogBuffer this'))
            (lzo_checksum this')
  /\ (LZObacklogBuffer this' = []
      \/ force = false
         /\ LZObacklogBuffer this' = LZObacklogBuffer this ++ c_str inputData
         /\ len (LZObacklogBuffer this') < lzo_block_size).
Proof.
  set (data := LZObacklogBuffer this ++ c_str inputData).
  assert (Hcase : force = false /\ len data < lzo_block_size
                  \/ (force = true \/ lzo_block_size <= len data)).
  { destruct force; [right; now left|].
    destruct (Z.lt_ge_cases (len data) lzo_block_size); [left|right]; auto. }
  destruct Hcase as [[-> Hlt] | Hc].
  - rewrite LZOCompress_decline by exact Hlt.
    intros H. inversion H; subst. split.
    + now destruct this.
    + right. simpl. auto.
  - rewrite LZOCompress_consume_eq by exact Hc.
    destruct (negb (buffers_allocated L C this)).
    + intros H. inversion H; subst. split; [now destruct this | now left].
    + cbv zeta. intros H. apply LZOCompress_loop_state in H.
      rewrite H. split; [reflexivity | now left].
Qed.

(** [LZOCompress] never exhausts the fuel of its loop. *)
Lemma LZOCompress_fuel (this : HdfsFile) (inputData : list byte)
    (force : bool) :
  LZOCompress L C this inputData force <> OutOfFuel.
Proof.
  unfold LZOCompress.
  destruct (if 0 <? len (LZObacklogBuffer this)
            then (LZObacklogBuffer this ++ c_str inputData,
                  set_LZObacklogBuffer this [])
            else (c_str inputData, this)) as [data this1].
  destruct ((len data <? lzo_block_size) && negb force); [discriminate|].
  cbv zeta.
  match goal with |- (if ?c then _ else _) <> _ => destruct c end;
    [discriminate|].
  pose proof (to_int_range (len data / lzo_block_size)).
  apply LZOCompress_loop_terminates; lia.
Qed.

End FramerFacts.

(** ** Opening, writing and closing *)

Section WriterFacts.

Variable L : lzo_library.
Variable C : libc.
Variable B : hdfs_backend.

Lemma set_LZOCompressionLevel_same (this : HdfsFile) :
  set_LZOCompressionLevel this (LZOCompressionLevel this) = this.
Proof. now destruct this. Qed.

(** The header: the magic, the fields, and the checksum of the fields
    accumulated from 1. *)
Lemma lzo_header_of_eq (this : HdfsFile) (base : list byte) :
  lzo_header_of L C this base
  = (set_lzo_checksum this
       (lzo_adler32 L
          (fold_left (lzo_adler32 L) (header_fields L C this base) 1)
          (int32_bytes
             (fold_left (lzo_adler32 L) (header_fields L C this base) 1))),
     lzop_magic ++ concat (header_fields L C this base)
     ++ int32_bytes
          (fold_left (lzo_adler32 L) (header_fields L C this base) 1)).
Proof.
  unfold lzo_header_of, header_fields, LZOStringAppendInt16,
    LZOStringAppendInt32, LZOStringAppendChar.
  cbn [fold_left concat lzo_checksum set_lzo_checksum LZOCompressionLevel].
  f_equal. rewrite <- !app_assoc. cbn [app]. reflexivity.
Qed.

(** All the ways [openWrite] can go. *)
Lemma openWrite_cases (this : HdfsFile) (tr : trace) :
  (fileSys this = NULL \/ hfile this <> NULL)
  /\ openWrite L C B this tr = (false, this, tr)
  \/ fileSys this <> NULL /\ hfile this = NULL
     /\ hdfsExists_ret B tr (c_str (filename this)) = 0
     /\ openWrite L C B this tr
        = (negb (hdfsOpenFile_ret B (tr ++ [CallExists (c_str (filename this))])
                   (c_str (filename this)) (Z.lor O_WRONLY O_APPEND) =? NULL),
           set_hfile (set_LZOCompressionLevel this 0)
             (hdfsOpenFile_ret B (tr ++ [CallExists (c_str (filename this))])
                (c_str (filename this)) (Z.lor O_WRONLY O_APPEND)),
           tr ++ [CallExists (c_str (filename this));
                  CallOpenFile (c_str (filename this))
                    (Z.lor O_WRONLY O_APPEND)])
  \/ fileSys this <> NULL /\ hfile this = NULL
     /\ hdfsExists_ret B tr (c_str (filename this)) <> 0
     /\ (hdfsOpenFile_ret B (tr ++ [CallExists (c_str (filename this))])
           (c_str (filename this)) O_WRONLY = NULL
         \/ LZOCompressionLevel this = 0)
     /\ openWrite L C B this tr
        = (negb (hdfsOpenFile_ret B (tr ++ [CallExists (c_str (filename this))])
                   (c_str (filename this)) O_WRONLY =? NULL),
           set_hfile this
             (hdfsOpenFile_ret B (tr ++ [CallExists (c_str (filename this))])
                (c_str (filename this)) O_WRONLY),
           tr ++ [CallExists (c_str (filename this));
                  CallOpenFile (c_str (filename this)) O_WRONLY])
  \/ fileSys this <> NULL /\ hfile this = NULL
     /\ hdfsExists_ret B tr (c_str (filename this)) <> 0
     /\ hdfsOpenFile_ret B (tr ++ [CallExists (c_str (filename this))])
          (c_str (filename this)) O_WRONLY <> NULL
     /\ LZOCompressionLevel this <> 0
     /\ openWrite L C B this tr
        = (true,
           set_LZObacklogBuffer
             (fst (lzo_header_of L C
                     (set_hfile this
                        (hdfsOpenFile_ret B
                           (tr ++ [CallExists (c_str (filename this))])
                           (c_str (filename this)) O_WRONLY))
                     (base_filename this)))
             [],
           tr ++ [CallExists (c_str (filename this));
                  CallOpenFile (c_str (filename this)) O_WRONLY;
                  CallWrite
                    (hdfsOpenFile_ret B
                       (tr ++ [CallExists (c_str (filename this))])
                       (c_str (filename this)) O_WRONLY)
                    (snd (lzo_header_of L C
                            (set_hfile this
                               (hdfsOpenFile_ret B
                                  (tr ++ [CallExists (c_str (filename this))])
                                  (c_str (filename this)) O_WRONLY))
                            (base_filename this)))
                    (to_int
                       (len (snd (lzo_header_of L C
                                    (set_hfile this
                                       (hdfsOpenFile_ret B
                                          (tr ++ [CallExists
                                                    (c_str (filename this))])
                                          (c_str (filename this)) O_WRONLY))
                                    (base_filename this)))))]).
Proof.
  unfold openWrite.
  destruct (fileSys this =? NULL) eqn:Hfs.
  { left. apply Z.eqb_eq in Hfs. auto. }
  destruct (hfile this =? NULL) eqn:Hh; simpl negb; cbv iota.
  2:{ left. apply Z.eqb_neq in Hh. auto. }
  right. apply Z.eqb_neq in Hfs. apply Z.eqb_eq in Hh.
  unfold hdfsExists, hdfsOpenFile, hdfsWrite. cbv zeta.
  destruct (hdfsExists_ret B tr (c_str (filename this)) =? 0) eqn:He.
  - left. apply Z.eqb_eq in He. repeat split; auto.
    cbn [hfile set_hfile].
    assert (Hthis : (if negb (LZOCompressionLevel this =? 0)
                     then set_LZOCompressionLevel this 0 else this)
                    = set_LZOCompressionLevel this 0).
    { destruct (LZOCompressionLevel this =? 0) eqn:Hl; [|reflexivity].
      apply Z.eqb_eq in Hl. simpl.
      rewrite <- (set_LZOCompressionLevel_same this) at 1. now rewrite Hl. }
    rewrite Hthis.
    cbn [filename hfile set_hfile set_LZOCompressionLevel].
    change (Z.lor O_WRONLY O_APPEND) with 1025.
    change (Z.land 1025 O_APPEND =? 0) with false.
    rewrite <- app_assoc.
    destruct (hdfsOpenFile_ret B (tr ++ [CallExists (c_str (filename this))])
                (c_str (filename this)) 1025 =? NULL);
      reflexivity.
  - right. apply Z.eqb_neq in He.
    cbn [hfile set_hfile LZOCompressionLevel].
    change (Z.land O_WRONLY O_APPEND =? 0) with true.
    simpl negb. cbv iota. rewrite <- app_assoc. cbn [app].
    destruct (hdfsOpenFile_ret B (tr ++ [CallExists (c_str (filename this))])
                (c_str (filename this)) O_WRONLY =? NULL) eqn:Ho.
    + left. apply Z.eqb_eq in Ho. repeat split; auto.
    + apply Z.eqb_neq in Ho. simpl negb. cbv iota.
      destruct (LZOCompressionLevel this =? 0) eqn:Hl.
      * left. apply Z.eqb_eq in Hl. repeat split; auto.
      * right. apply Z.eqb_neq in Hl. repeat split; auto.
        simpl negb. cbv iota.
        destruct (lzo_header_of L C
                    (set_hfile this
                       (hdfsOpenFile_ret B
                          (tr ++ [CallExists (c_str (filename this))])
                          (c_str (filename this)) O_WRONLY))
                    (base_filename this)) as [this1 hdr] eqn:Hhdr.
        rewrite lzo_header_of_eq in Hhdr. inversion Hhdr; subst.
        cbn [fst snd hfile set_lzo_checksum set_hfile].
        rewrite <- app_assoc. reflexivity.
Qed.

Lemma block_at_len (data : list byte) (k : nat) :
  len (block_at data k) <= lzo_block_size.
Proof.
  unfold block_at, len. rewrite length_firstn.
  pose proof lzo_block_size_val. lia.
Qed.

Lemma framer_blocks_len (data : list byte) :
  len data < 2 ^ 31 ->
  Forall (fun b => len b < 2 ^ 32) (framer_blocks data).
Proof.
  intros Hint. unfold framer_blocks.
  destruct (len data / lzo_block_size =? 0).
  - constructor; [lia | constructor].
  - apply Forall_forall. intros b Hb. apply in_map_iff in Hb as (k & <- & _).
    pose proof (block_at_len data k). pose proof lzo_block_size_val. lia.
Qed.

(** C4. Every block the framer processes yields one frame: variant (a) --
    uncompressed length, compressed length, checksum of the raw block,
    checksum of the compressed bytes, compressed bytes -- when the
    compressed length is strictly smaller than the raw length, and
    variant (b) -- the uncompressed length twice, then the raw block --
    otherwise.  The output of [LZOCompress] is these frames, in the order
    of the blocks. *)
Theorem LZOCompress_emits_frame_variants
    (this : HdfsFile) (inputData : list byte) (force : bool) :
  len (LZObacklogBuffer this ++ c_str inputData) < 2 ^ 31 ->
  force = true
  \/ lzo_block_size <= len (LZObacklogBuffer this ++ c_str inputData) ->
  buffers_allocated L C this = true ->
  forallb (compress_ok L this)
    (framer_blocks (LZObacklogBuffer this ++ c_str inputData)) = true ->
  exists ck,
    LZOCompress L C this inputData force
    = Returns
        (flat_map
           (fun block =>
              if len (snd (compress L this block)) <? len block
              then frame_variant_a L block (snd (compress L this block))
              else frame_variant_b block)
           (framer_blocks (LZObacklogBuffer this ++ c_str inputData)),
         true,
         set_lzo_checksum (set_LZObacklogBuffer this []) ck).
Proof.
  intros Hint Hc Hmem Hok.
  rewrite LZOCompress_consume by assumption.
  destruct (frame_blocks_ok L
              (framer_blocks (LZObacklogBuffer this ++ c_str inputData))
              (set_LZObacklogBuffer this []) []
              (framer_blocks_len _ Hint) Hok) as [ck E].
  exists ck. rewrite E. reflexivity.
Qed.

(** C7. The running checksum is set to 1 when the stream is opened and
    moves with every header field; the checksum the header ends with is the
    accumulator run over the fields from 1.  In a frame of variant (a) the
    two checksums are the accumulator seeded at 1 over the raw block and
    over the compressed bytes, whatever the running checksum of the writer
    holds: nothing is chained from the header or from earlier blocks. *)
Theorem checksums_seeded_at_one
    (this : HdfsFile) (tr : trace)
    (w : HdfsFile) (cd block : list byte) (running : Z) :
  fileSys this <> NULL -> hfile this = NULL ->
  hdfsExists_ret B tr (c_str (filename this)) <> 0 ->
  hdfsOpenFile_ret B (tr ++ [CallExists (c_str (filename this))])
    (c_str (filename this)) O_WRONLY <> NULL ->
  LZOCompressionLevel this <> 0 ->
  len block < 2 ^ 32 ->
  compress_ok L w block = true ->
  len (snd (compress L w block)) < len block ->
  (let fields := header_fields L C this (base_filename this) in
   let sum := fold_left (lzo_adler32 L) fields 1 in
   let header := lzop_magic ++ concat fields ++ int32_bytes sum in
   let h := hdfsOpenFile_ret B (tr ++ [CallExists (c_str (filename this))])
              (c_str (filename this)) O_WRONLY in
   exists this',
     openWrite L C B this tr
     = (true, this',
        tr ++ [CallExists (c_str (filename this));
               CallOpenFile (c_str (filename this)) O_WRONLY;
               CallWrite h header (to_int (len header))])
     /\ lzo_checksum this' = lzo_adler32 L sum (int32_bytes sum))
  /\ (exists ck,
        LZOCompress_frame L (set_lzo_checksum w running) cd block
        = Some (set_lzo_checksum w ck,
                cd ++ int32_bytes (len block)
                ++ int32_bytes (len (snd (compress L w block)))
                ++ int32_bytes (lzo_adler32 L 1 block)
                ++ int32_bytes (lzo_adler32 L 1 (snd (compress L w block)))
                ++ snd (compress L w block))).
Proof.
  intros Hfs Hh He Ho Hl Hlen Hok Hlt. split.
  - cbv zeta.
    destruct (openWrite_cases this tr)
      as [[[?|?] _] | [(_ & _ & ? & _) | [(_ & _ & _ & [?|?] & _)
                                          | (_ & _ & _ & _ & _ & E)]]];
      try contradiction.
    rewrite E. rewrite lzo_header_of_eq. cbn [fst snd].
    eexists. split; reflexivity.
  - destruct (LZOCompress_frame_ok L (set_lzo_checksum w running) cd block
                Hlen Hok) as [ck E].
    exists ck. rewrite E. unfold frame_of.
    change (compress L (set_lzo_checksum w running) block)
      with (compress L w block).
    apply Z.ltb_lt in Hlt. rewrite Hlt. reflexivity.
Qed.

(** C6 (amended). [openWrite] on a connected writer without handle, on a
    name that exists, opens it for appending, leaves the compression level
    at 0 whatever it was, and calls [hdfsWrite] not once: no header.
    Whenever [openWrite] does write, the name did not exist and the
    compression level was not 0. *)
Theorem openWrite_existing_appends (this : HdfsFile) (tr : trace) :
  fileSys this <> NULL -> hfile this = NULL ->
  hdfsExists_ret B tr (c_str (filename this)) = 0 ->
  (exists this' opened,
     openWrite L C B this tr
     = (opened, this',
        tr ++ [CallExists (c_str (filename this));
               CallOpenFile (c_str (filename this))
                 (Z.lor O_WRONLY O_APPEND)])
     /\ LZOCompressionLevel this' = 0
     /\ hfile this'
        = hdfsOpenFile_ret B (tr ++ [CallExists (c_str (filename this))])
            (c_str (filename this)) (Z.lor O_WRONLY O_APPEND)
     /\ opened = negb (hfile this' =? NULL)
     /\ LZObacklogBuffer this' = LZObacklogBuffer this)
  /\ (forall (w : HdfsFile) (tr0 : trace),
        filter is_write (snd (openWrite L C B w tr0)) <> filter is_write tr0 ->
        hdfsExists_ret B tr0 (c_str (filename w)) <> 0
        /\ LZOCompressionLevel w <> 0).
Proof.
  intros Hfs Hh He. split.
  - destruct (openWrite_cases this tr)
      as [[[?|?] _] | [(_ & _ & _ & E) | [(_ & _ & ? & _)
                                          | (_ & _ & ? & _)]]];
      try contradiction.
    rewrite E. eexists. eexists. split; [reflexivity|].
    cbn [LZOCompressionLevel hfile LZObacklogBuffer set_hfile
         set_LZOCompressionLevel]. auto.
  - intros w tr0 Hw.
    destruct (openWrite_cases w tr0)
      as [[_ E] | [(_ & _ & _ & E) | [(_ & _ & _ & _ & E)
                                      | (_ & _ & ? & _ & ? & _)]]];
      [exfalso; apply Hw; rewrite E; cbn [snd]..|auto].
    + reflexivity.
    + rewrite filter_app. cbn [filter is_write]. apply app_nil_r.
    + rewrite filter_app. cbn [filter is_write]. apply app_nil_r.
Qed.

(** [openWrite] failing has written nothing. *)
Lemma openWrite_false_no_write (this this' : HdfsFile) (tr tr' : trace) :
  openWrite L C B this tr = (false, this', tr') ->
  filter is_write tr' = filter is_write tr.
Proof.
  intros H.
  destruct (openWrite_cases this tr)
    as [[_ E] | [(_ & _ & _ & E) | [(_ & _ & _ & _ & E)
                                    | (_ & _ & _ & _ & _ & E)]]];
    rewrite E in H; inversion H; subst;
    try reflexivity;
    rewrite filter_app; cbn [filter is_write]; apply app_nil_r.
Qed.

(** C9. [write] on a writer without a handle runs [openWrite] first; when
    that fails, [write] returns false in the state [openWrite] left, and
    no [hdfsWrite] has been called. *)
Theorem write_unopened_open_fails
    (this this' : HdfsFile) (tr tr' : trace) (data : list byte) :
  hfile this = NULL ->
  openWrite L C B this tr = (false, this', tr') ->
  write L C B this tr data = Returns (false, this', tr')
  /\ filter is_write tr' = filter is_write tr.
Proof.
  intros Hh Ho. split.
  - unfold write, isOpen. rewrite Hh. change (negb (negb (NULL =? NULL)))
      with true. cbv iota. rewrite Ho. reflexivity.
  - exact (openWrite_false_no_write _ _ _ _ Ho).
Qed.

(** Below the block size an open, compressing writer queues the input as
    a C string and leaves the sink alone. *)
Lemma write_queues (this : HdfsFile) (tr : trace) (data : list byte) :
  hfile this <> NULL -> LZOCompressionLevel this <> 0 ->
  len (LZObacklogBuffer this ++ c_str data) < lzo_block_size ->
  write L C B this tr data
  = Returns (true,
             set_LZObacklogBuffer this (LZObacklogBuffer this ++ c_str data),
             tr).
Proof.
  intros Hh Hl Hlt. unfold write, isOpen.
  apply Z.eqb_neq in Hh. rewrite Hh. simpl negb. cbv iota.
  apply Z.eqb_neq in Hl. rewrite Hl. simpl negb. cbv iota.
  rewrite LZOCompress_decline by exact Hlt.
  rewrite string_eqb_refl. reflexivity.
Qed.

(** C5 (amended). [write] on a writer with an open handle and compression
    enabled, given data without NUL byte that together with the backlog
    is shorter than a block: the backlog followed by the data becomes the
    backlog, the call reports success, and no libhdfs call is made -- the
    trace of the sink is the one before the call. *)
Theorem write_queues_below_block_size
    (this : HdfsFile) (tr : trace) (data : list byte) :
  hfile this <> NULL -> LZOCompressionLevel this <> 0 ->
  forallb (fun c => negb (Byte.eqb c x00)) data = true ->
  len (LZObacklogBuffer this ++ data) < lzo_block_size ->
  write L C B this tr data
  = Returns (true,
             set_LZObacklogBuffer this (LZObacklogBuffer this ++ data),
             tr).
Proof.
  intros Hh Hl Hnul Hlt.
  rewrite <- (c_str_no_nul data Hnul) at 2.
  apply write_queues; try assumption.
  now rewrite (c_str_no_nul data Hnul).
Qed.

(** The backlog stays shorter than a block: [openWrite] keeps or empties
    it, [LZOCompress] empties it or queues less than a block. *)
Lemma openWrite_backlog (this : HdfsFile) (tr : trace) :
  LZObacklogBuffer (snd (fst (openWrite L C B this tr)))
  = LZObacklogBuffer this
  \/ LZObacklogBuffer (snd (fst (openWrite L C B this tr))) = [].
Proof.
  destruct (openWrite_cases this tr)
    as [[_ E] | [(_ & _ & _ & E) | [(_ & _ & _ & _ & E)
                                    | (_ & _ & _ & _ & _ & E)]]];
    rewrite E; cbn [fst snd]; auto.
Qed.

Lemma write_backlog_short (this this' : HdfsFile) (tr tr' : trace)
    (data : list byte) (ok : bool) :
  len (LZObacklogBuffer this) < lzo_block_size ->
  write L C B this tr data = Returns (ok, this', tr') ->
  len (LZObacklogBuffer this') < lzo_block_size.
Proof.
  intros Hlt. pose proof lzo_block_size_val as Hbs. unfold write.
  assert (Hopen : len (LZObacklogBuffer
                         (snd (fst (if negb (isOpen this)
                                    then openWrite L C B this tr
                                    else (true, this, tr)))))
                  < lzo_block_size).
  { destruct (negb (isOpen this)); [|exact Hlt].
    destruct (openWrite_backlog this tr) as [-> | ->];
      [exact Hlt | rewrite Hbs; reflexivity]. }
  destruct (if negb (isOpen this) then openWrite L C B this tr
            else (true, this, tr)) as [[opened this1] tr1].
  cbn [fst snd] in Hopen.
  destruct opened; cbn [negb].
  2:{ intros H. inversion H; subst. exact Hopen. }
  destruct (LZOCompressionLevel this1 =? 0); cbn [negb].
  { unfold hdfsWrite. intros H. inversion H; subst. exact Hopen. }
  destruct (LZOCompress L C this1 data false) as [[[cd success] this2]| |]
    eqn:E; try discriminate.
  apply LZOCompress_state in E. destruct E as [_ Hb].
  assert (len (LZObacklogBuffer this2) < lzo_block_size)
    by (destruct Hb as [-> | (_ & _ & ?)];
        [rewrite Hbs; reflexivity | assumption]).
  unfold hdfsWrite.
  destruct (negb (string_eqb cd data) && success);
    [|destruct (negb success)];
    intros H'; inversion H'; subst; assumption.
Qed.

(** [write] and [close] never exhaust the fuel of the framer's loop. *)
Lemma write_fuel (this : HdfsFile) (tr : trace) (data : list byte) :
  write L C B this tr data <> OutOfFuel.
Proof.
  unfold write.
  destruct (if negb (isOpen this) then openWrite L C B this tr
            else (true, this, tr)) as [[opened this1] tr1].
  destruct (negb opened); [discriminate|].
  destruct (negb (LZOCompressionLevel this1 =? 0)).
  - pose proof (LZOCompress_fuel L C this1 data false) as Hf.
    destruct (LZOCompress L C this1 data false) as [[[cd success] this2]| |];
      [|discriminate|contradiction].
    unfold hdfsWrite.
    destruct (negb (string_eqb cd data) && success);
      [|destruct (negb success)]; discriminate.
  - unfold hdfsWrite. discriminate.
Qed.

Lemma close_fuel (this : HdfsFile) (tr : trace) :
  close L C B this tr <> OutOfFuel.
Proof.
  unfold close.
  destruct (negb (fileSys this =? NULL)); [|discriminate].
  destruct (negb (hfile this =? NULL)); [|discriminate].
  destruct (negb (LZOCompressionLevel this =? 0)); [|discriminate].
  pose proof (LZOCompress_fuel L C this [] true) as Hf.
  destruct (LZOCompress L C this [] true) as [[[cd good] this1]| |];
    [discriminate|discriminate|contradiction].
Qed.

(** The forced flush of a backlog shorter than a block: the backlog is the
    one block. *)
Lemma LZOCompress_flush (this : HdfsFile) :
  len (LZObacklogBuffer this) < lzo_block_size ->
  exists ck,
    LZOCompress L C this [] true
    = if buffers_allocated L C this
         && compress_ok L this (LZObacklogBuffer this)
      then Returns (frame_of L this (LZObacklogBuffer this), true,
                    set_lzo_checksum (set_LZObacklogBuffer this []) ck)
      else Returns (LZObacklogBuffer this, false,
                    set_lzo_checksum (set_LZObacklogBuffer this []) ck).
Proof.
  intros Hlt. pose proof lzo_block_size_val as Hbs.
  pose proof (len_nonneg (LZObacklogBuffer this)) as Hnn.
  destruct (buffers_allocated L C this) eqn:Hmem.
  - pose proof (LZOCompress_consume L C this [] true) as E.
    cbv zeta in E. simpl c_str in E. rewrite app_nil_r in E.
    rewrite E by (auto; lia). clear E.
    unfold framer_blocks. rewrite Z.div_small by lia.
    change (0 =? 0) with true. cbv iota. rewrite andb_true_l.
    destruct (compress_ok L this (LZObacklogBuffer this)) eqn:Hok.
    + destruct (frame_blocks_ok L [LZObacklogBuffer this]
                  (set_LZObacklogBuffer this []) []) as [ck E].
      * constructor; [lia | constructor].
      * simpl. now rewrite andb_true_r.
      * exists ck. rewrite E. simpl. now rewrite app_nil_r.
    + destruct (frame_blocks_fail L [LZObacklogBuffer this]
                  (set_LZObacklogBuffer this []) []) as [ck E].
      * simpl. now rewrite andb_true_r.
      * exists ck. rewrite E. reflexivity.
  - exists (lzo_checksum this).
    rewrite LZOCompress_consume_eq by now left.
    rewrite Hmem. simpl. rewrite app_nil_r. reflexivity.
Qed.

(** C10. [close] with compression enabled and a forced flush that fails:
    nothing of the backlog is written and the backlog is gone, but the
    terminator is written and the handle closed. *)
Theorem close_failed_flush
    (this : HdfsFile) (tr : trace) (clearBuf : list byte) (this1 : HdfsFile) :
  fileSys this <> NULL -> hfile this <> NULL ->
  LZOCompressionLevel this <> 0 ->
  LZOCompress L C this [] true = Returns (clearBuf, false, this1) ->
  exists this',
    close L C B this tr
    = Returns (this',
               tr ++ [CallWrite (hfile this) [x00; x00; x00; x00] 4;
                      CallCloseFile (hfile this)])
    /\ hfile this' = NULL
    /\ LZObacklogBuffer this' = [].
Proof.
  intros Hfs Hh Hl E. apply Z.eqb_neq in Hfs, Hh, Hl.
  unfold close. rewrite Hfs, Hh, Hl. simpl negb. cbv iota. rewrite E.
  destruct (LZOCompress_state L C _ _ _ _ _ _ E) as [Hthis Hb].
  assert (Hb' : LZObacklogBuffer this1 = [])
    by (destruct Hb as [?|[? _]]; [assumption | discriminate]).
  assert (Hh1 : hfile this1 = hfile this) by (rewrite Hthis; reflexivity).
  eexists. split; [|split].
  - unfold hdfsWrite, hdfsCloseFile. cbn [snd]. rewrite Hh1.
    rewrite <- app_assoc. reflexivity.
  - reflexivity.
  - exact Hb'.
Qed.

(** C2 (the code departs from it). An input of one block and one byte,
    framed with an empty backlog: whatever the compressor does, the last
    byte is in no frame and not in the backlog either.  On success the
    output is the single frame of the first [lzo_block_size] bytes. *)
Theorem LZOCompress_drops_remainder (level : Z) :
  match LZOCompress L C (writer_with 1 level []) block_and_a_byte false with
  | Returns (out, ok, this') =>
    LZObacklogBuffer this' = []
    /\ (ok = true ->
        out = frame_of L (writer_with 1 level [])
                (repeat x41 (Z.to_nat lzo_block_size)))
    /\ (ok = false -> out = block_and_a_byte)
  | _ => False
  end.
Proof.
  assert (Hc : c_str block_and_a_byte = block_and_a_byte)
    by (apply string_eqb_eq; vm_compute; reflexivity).
  assert (Hlen : len block_and_a_byte = 262145) by (vm_compute; reflexivity).
  assert (Hbl : framer_blocks block_and_a_byte
                = [repeat x41 (Z.to_nat lzo_block_size)])
    by (apply same_blocks_eq; vm_compute; reflexivity).
  assert (Hb : len (repeat x41 (Z.to_nat lzo_block_size)) < 2 ^ 32)
    by (vm_compute; reflexivity).
  pose proof lzo_block_size_val as Hbs.
  set (this := writer_with 1 level []).
  assert (Hdata : LZObacklogBuffer this ++ c_str block_and_a_byte
                  = block_and_a_byte) by (rewrite Hc; reflexivity).
  destruct (buffers_allocated L C this) eqn:Hmem.
  - pose proof (LZOCompress_consume L C this block_and_a_byte false) as E.
    cbv zeta in E. rewrite Hdata in E. rewrite E; clear E.
    + rewrite Hbl. cbn [frame_blocks].
      destruct (compress_ok L (set_LZObacklogBuffer this [])
                  (repeat x41 (Z.to_nat lzo_block_size))) eqn:Hok.
      * destruct (LZOCompress_frame_ok L (set_LZObacklogBuffer this []) []
                    _ Hb Hok) as [ck E].
        rewrite E. cbn [finish app].
        split; [reflexivity | split; intros; [reflexivity | discriminate]].
      * rewrite (LZOCompress_frame_fail L _ [] _ Hok).
        cbn [finish].
        split; [reflexivity | split; intros; [discriminate | reflexivity]].
    + rewrite Hlen. reflexivity.
    + right. rewrite Hlen, Hbs. discriminate.
    + exact Hmem.
  - pose proof (LZOCompress_consume_eq L C this block_and_a_byte false) as E.
    cbv zeta in E. rewrite Hdata in E. rewrite E; clear E.
    + rewrite Hmem. cbn [negb].
      split; [reflexivity | split; intros; [discriminate | reflexivity]].
    + right. rewrite Hlen, Hbs. discriminate.
Qed.

End WriterFacts.

(** ** The writer run on concrete inputs *)

(** C1 (the code departs from it). A fresh writer with compression level 1
    is given one block and one byte in a single [write] and closed.  The
    sink receives the header, the frame of the first [lzo_block_size]
    bytes, an empty frame and the terminator, every write in full: the
    last byte of the input is in no frame.  Given the three bytes ['A'],
    NUL, ['B'] instead, the sink receives the header, the frame of ['A']
    alone and the terminator. *)
Theorem write_close_loses_bytes :
  (exists ck,
     write_then_close (lzo_with stored_compress) (libc_with true)
       (backend_with [] 1)
       (setShouldLZOCompress (lzo_with stored_compress)
          (writer_with NULL 0 []) 1)
       [] block_and_a_byte
     = Returns
         (true,
          set_lzo_checksum (writer_with NULL 1 []) ck,
          [CallExists log_name;
           CallOpenFile log_name O_WRONLY;
           CallWrite 1
             (snd (lzo_header_of (lzo_with stored_compress) (libc_with true)
                     (writer_with 1 1 []) log_name))
             43;
           CallWrite 1
             (frame_variant_b (repeat x41 (Z.to_nat lzo_block_size)))
             (lzo_block_size + 8);
           CallWrite 1 (frame_variant_b []) 8;
           CallWrite 1 eof 4;
           CallCloseFile 1]))
  /\ repeat x41 (Z.to_nat lzo_block_size) ++ [] <> block_and_a_byte
  /\ (exists ck,
        write_then_close (lzo_with stored_compress) (libc_with true)
          (backend_with [] 1)
          (setShouldLZOCompress (lzo_with stored_compress)
             (writer_with NULL 0 []) 1)
          [] [x41; x00; x42]
        = Returns
            (true,
             set_lzo_checksum (writer_with NULL 1 []) ck,
             [CallExists log_name;
              CallOpenFile log_name O_WRONLY;
              CallWrite 1
                (snd (lzo_header_of (lzo_with stored_compress)
                        (libc_with true) (writer_with 1 1 []) log_name))
                43;
              CallWrite 1 (frame_variant_b [x41]) 9;
              CallWrite 1 eof 4;
              CallCloseFile 1])).
Proof.
  split; [|split].
  - exists 1914962938.
    by_evaluation.
  - intros H. apply (f_equal len) in H. vm_compute in H. discriminate.
  - exists 1379009524.
    by_evaluation.
Qed.

(** C3 (the code departs from it). The backlog holds ['a'], the compressor
    reports an error, and [write] is given one byte less than a block:
    [write] returns true, only the bytes of this call reach the sink, and
    the backlog is empty afterwards -- the byte ['a'] is lost. *)
Theorem write_fallback_loses_backlog :
  write (lzo_with failing_compress) (libc_with true) (backend_with [] 1)
    (writer_with 1 1 [x61]) [] block_less_a_byte
  = Returns (true, writer_with 1 1 [],
             [CallWrite 1 block_less_a_byte (lzo_block_size - 1)])
  /\ len block_less_a_byte = lzo_block_size - 1
  /\ x61 :: block_less_a_byte <> block_less_a_byte.
Proof.
  split; [|split].
  - by_evaluation.
  - vm_compute. reflexivity.
  - intros H. apply (f_equal len) in H. vm_compute in H. discriminate.
Qed.

(** An open, compressing writer with an empty backlog is given the three
    bytes ['A'], NUL, ['B']: the call reports success and leaves the sink
    alone, but the backlog it retains is ['A'] alone. *)
Lemma write_truncates_at_nul :
  write (lzo_with stored_compress) (libc_with true) (backend_with [] 1)
    (writer_with 1 1 []) [] [x41; x00; x42]
  = Returns (true, writer_with 1 1 [x41], []).
Proof.
  by_evaluation.
Qed.

(** C5 as stated fails: a writer with compression level 1 and no handle yet
    is given one byte.  [write] opens the new name first, and the header
    goes to the sink within the call: the trace of the sink is not the one
    before the call. *)
Lemma write_unopened_writes_header :
  LZOCompressionLevel (writer_with NULL 1 []) <> 0
  /\ len (LZObacklogBuffer (writer_with NULL 1 []) ++ [x41]) < lzo_block_size
  /\ (exists ck,
        write (lzo_with stored_compress) (libc_with true) (backend_with [] 7)
          (writer_with NULL 1 []) [] [x41]
        = Returns
            (true,
             set_lzo_checksum (writer_with 7 1 [x41]) ck,
             [CallExists log_name;
              CallOpenFile log_name O_WRONLY;
              CallWrite 7
                (snd (lzo_header_of (lzo_with stored_compress)
                        (libc_with true) (writer_with 7 1 []) log_name))
                43]))
  /\ ~ (exists ok this',
          write (lzo_with stored_compress) (libc_with true)
            (backend_with [] 7) (writer_with NULL 1 []) [] [x41]
          = Returns (ok, this', [])).
Proof.
  assert (E : write (lzo_with stored_compress) (libc_with true)
                (backend_with [] 7) (writer_with NULL 1 []) [] [x41]
              = Returns
                  (true,
                   set_lzo_checksum (writer_with 7 1 [x41]) 849085426,
                   [CallExists log_name;
                    CallOpenFile log_name O_WRONLY;
                    CallWrite 7
                      (snd (lzo_header_of (lzo_with stored_compress)
                              (libc_with true) (writer_with 7 1 [])
                              log_name))
                      43]))
    by by_evaluation.
  split; [discriminate|]. split; [vm_compute; reflexivity|]. split.
  - eexists. exact E.
  - intros (ok & this' & H). rewrite E in H. discriminate H.
Qed.

(** C6 as stated fails: the name exists and the level is 3, but the writer
    already holds a handle.  [openWrite] returns false and changes
    nothing: no append open, and the level stays 3. *)
Lemma openWrite_already_open_keeps_level :
  hdfsExists_ret (backend_with [log_name] 7) [] (c_str log_name) = 0
  /\ openWrite (lzo_with stored_compress) (libc_with true)
       (backend_with [log_name] 7) (writer_with 7 3 []) []
     = (false, writer_with 7 3 [], [])
  /\ ~ (exists ok this' tr',
          openWrite (lzo_with stored_compress) (libc_with true)
            (backend_with [log_name] 7) (writer_with 7 3 []) []
          = (ok, this', tr')
          /\ LZOCompressionLevel this' = 0).
Proof.
  assert (E : openWrite (lzo_with stored_compress) (libc_with true)
                (backend_with [log_name] 7) (writer_with 7 3 []) []
              = (false, writer_with 7 3 [], []))
    by (vm_compute; reflexivity).
  split; [vm_compute; reflexivity|]. split; [exact E|].
  intros (ok & this' & tr' & H & Hl). rewrite E in H.
  inversion H; subst. discriminate Hl.
Qed.

(** C8 as stated fails, in three ways.  The compression level is 1 but
    the writer holds no handle: [close] calls nothing, no terminator is
    written.  A terminator is not the end of the stream: a writer that is
    closed, opened again on the same name and given a compression level
    again sends its next data frame, and a second terminator, after the
    first terminator.  And when the work buffers cannot be allocated the
    terminator follows no flushed frame: the backlog is not written. *)
Lemma close_terminator_counterexamples :
  (LZOCompressionLevel (writer_with NULL 1 []) <> 0
   /\ close (lzo_with stored_compress) (libc_with true) (backend_with [] 7)
        (writer_with NULL 1 []) []
      = Returns (writer_with NULL 1 [], [])
   /\ ~ (exists this' tr',
           close (lzo_with stored_compress) (libc_with true)
             (backend_with [] 7) (writer_with NULL 1 []) []
           = Returns (this', tr')
           /\ existsb is_write tr' = true))
  /\ exists this' header,
       run (lzo_with stored_compress) (libc_with true) (backend_with [] 7)
         (writer_with NULL 1 []) []
         [DoOpenWrite; DoWrite [x61]; DoClose;
          DoOpenWrite; DoSetShouldLZOCompress 1; DoWrite [x62]; DoClose]
       = Returns
           (this',
            [CallExists log_name; CallOpenFile log_name O_WRONLY;
             CallWrite 7 header 43;
             CallWrite 7 (frame_variant_b [x61]) 9;
             CallWrite 7 [x00; x00; x00; x00] 4;
             CallCloseFile 7;
             CallExists log_name;
             CallOpenFile log_name (Z.lor O_WRONLY O_APPEND);
             CallWrite 7 (frame_variant_b [x62]) 9;
             CallWrite 7 [x00; x00; x00; x00] 4;
             CallCloseFile 7])
     /\ close (lzo_with stored_compress) (libc_with false)
          (backend_with [] 7) (writer_with 7 1 [x61; x62; x63]) []
        = Returns (writer_with NULL 1 [],
                   [CallWrite 7 [x00; x00; x00; x00] 4; CallCloseFile 7]).
Proof.
  assert (E : close (lzo_with stored_compress) (libc_with true)
                (backend_with [] 7) (writer_with NULL 1 []) []
              = Returns (writer_with NULL 1 [], []))
    by (vm_compute; reflexivity).
  split.
  - split; [discriminate|]. split; [exact E|].
    intros (this' & tr' & H & Hw). rewrite E in H.
    inversion H; subst. discriminate Hw.
  - eexists. eexists. split; vm_compute; reflexivity.
Qed.

(** ** The theorems at concrete writers *)

(** A backlog of 22 ['a'] is flushed at level 9: one frame of variant (a)
    around the two bytes the run-length compressor returns. *)
Lemma LZOCompress_emits_frame_variants_witness :
  exists ck,
    LZOCompress (lzo_with stored_compress) (libc_with true)
      (writer_with 7 9 (repeat x61 22)) [] true
    = Returns
        (frame_variant_a (lzo_with stored_compress) (repeat x61 22)
           [uchar 22; x61],
         true,
         set_lzo_checksum (writer_with 7 9 []) ck).
Proof.
  destruct (LZOCompress_emits_frame_variants
              (lzo_with stored_compress) (libc_with true)
              (writer_with 7 9 (repeat x61 22)) [] true) as [ck E].
  - vm_compute. reflexivity.
  - left. reflexivity.
  - vm_compute. reflexivity.
  - vm_compute. reflexivity.
  - exists ck. rewrite E. vm_compute. reflexivity.
Defined.

(** A new name is opened at level 9, and a block of 22 ['a'] is framed by
    a writer whose running checksum holds 12345. *)
Lemma checksums_seeded_at_one_witness :
  (exists this' header,
     openWrite (lzo_with stored_compress) (libc_with true)
       (backend_with [] 7) (writer_with NULL 9 []) []
     = (true, this',
        [CallExists log_name; CallOpenFile log_name O_WRONLY;
         CallWrite 7 header 43])
     /\ firstn 9 header = lzop_magic)
  /\ (exists ck,
        LZOCompress_frame (lzo_with stored_compress)
          (set_lzo_checksum (writer_with 7 9 []) 12345) [] (repeat x61 22)
        = Some (set_lzo_checksum (writer_with 7 9 []) ck,
                int32_bytes 22 ++ int32_bytes 2
                ++ int32_bytes (adler32 1 (repeat x61 22))
                ++ int32_bytes (adler32 1 [uchar 22; x61])
                ++ [uchar 22; x61])).
Proof.
  destruct (checksums_seeded_at_one
              (lzo_with stored_compress) (libc_with true) (backend_with [] 7)
              (writer_with NULL 9 []) []
              (writer_with 7 9 []) [] (repeat x61 22) 12345)
    as [Hopen [ck E]].
  - discriminate.
  - reflexivity.
  - vm_compute. discriminate.
  - vm_compute. discriminate.
  - discriminate.
  - vm_compute. reflexivity.
  - vm_compute. reflexivity.
  - vm_compute. reflexivity.
  - split.
    + cbv zeta in Hopen. destruct Hopen as (this' & Ho & _).
      exists this'. eexists. split; [rewrite Ho; vm_compute; reflexivity|].
      reflexivity.
    + exists ck. rewrite E. vm_compute. reflexivity.
Defined.

(** The name exists and the writer comes with level 3. *)
Lemma openWrite_existing_appends_witness :
  exists this' opened,
    openWrite (lzo_with stored_compress) (libc_with true)
      (backend_with [log_name] 7) (writer_with NULL 3 []) []
    = (opened, this',
       [] ++ [CallExists (c_str (filename (writer_with NULL 3 [])));
              CallOpenFile (c_str (filename (writer_with NULL 3 [])))
                (Z.lor O_WRONLY O_APPEND)])
    /\ LZOCompressionLevel this' = 0
    /\ hfile this'
       = hdfsOpenFile_ret (backend_with [log_name] 7)
           ([] ++ [CallExists (c_str (filename (writer_with NULL 3 [])))])
           (c_str (filename (writer_with NULL 3 [])))
           (Z.lor O_WRONLY O_APPEND)
    /\ opened = negb (hfile this' =? NULL)
    /\ LZObacklogBuffer this' = LZObacklogBuffer (writer_with NULL 3 []).
Proof.
  apply (openWrite_existing_appends
           (lzo_with stored_compress) (libc_with true)
           (backend_with [log_name] 7) (writer_with NULL 3 []) []).
  - discriminate.
  - reflexivity.
  - vm_compute. reflexivity.
Defined.

(** The backend answers [NULL] to [hdfsOpenFile]. *)
Lemma write_unopened_open_fails_witness :
  write (lzo_with stored_compress) (libc_with true) (backend_with [] NULL)
    (writer_with NULL 1 []) [] [x41]
  = Returns (false, writer_with NULL 1 [],
             [CallExists log_name; CallOpenFile log_name O_WRONLY])
  /\ filter is_write [CallExists log_name; CallOpenFile log_name O_WRONLY]
     = filter is_write [].
Proof.
  apply (write_unopened_open_fails
           (lzo_with stored_compress) (libc_with true) (backend_with [] NULL)).
  - reflexivity.
  - vm_compute. reflexivity.
Defined.

(** The work buffers cannot be allocated: the flush of three bytes fails. *)
Lemma close_failed_flush_witness :
  exists this',
    close (lzo_with stored_compress) (libc_with false) (backend_with [] 7)
      (writer_with 7 1 [x61; x62; x63]) []
    = Returns (this',
               [] ++ [CallWrite (hfile (writer_with 7 1 [x61; x62; x63]))
                        [x00; x00; x00; x00] 4;
                      CallCloseFile (hfile (writer_with 7 1 [x61; x62; x63]))])
    /\ hfile this' = NULL
    /\ LZObacklogBuffer this' = [].
Proof.
  apply (close_failed_flush
           (lzo_with stored_compress) (libc_with false) (backend_with [] 7)
           (writer_with 7 1 [x61; x62; x63]) []
           [x61; x62; x63] (writer_with 7 1 [])).
  - discriminate.
  - discriminate.
  - discriminate.
  - vm_compute. reflexivity.
Defined.

(** Two bytes join a backlog of one. *)
Lemma write_queues_below_block_size_witness :
  write (lzo_with stored_compress) (libc_with true) (backend_with [] 7)
    (writer_with 7 1 [x61]) [] [x62; x63]
  = Returns (true,
             set_LZObacklogBuffer (writer_with 7 1 [x61])
               (LZObacklogBuffer (writer_with 7 1 [x61]) ++ [x62; x63]),
             []).
Proof.
  apply (write_queues_below_block_size
           (lzo_with stored_compress) (libc_with true) (backend_with [] 7)).
  - discriminate.
  - discriminate.
  - reflexivity.
  - vm_compute. reflexivity.
Defined.

(** ** Fields and frames *)

Lemma uchar_value (z : Z) : Z.of_N (Byte.to_N (uchar z)) = Z.land z 255.
Proof.
  unfold uchar.
  assert (Hr : 0 <= Z.land z 255 < 256).
  { change 255 with (Z.ones 8). rewrite Z.land_ones by lia.
    apply Z.mod_pos_bound. lia. }
  destruct (Byte.of_N (Z.to_N (Z.land z 255))) as [b|] eqn:E.
  - apply Byte.to_of_N in E. rewrite E. lia.
  - apply Byte.of_N_None_iff in E. lia.
Qed.

Lemma byte_of_shift (v k : Z) :
  0 <= k -> Z.land (Z.shiftr v k) 255 = (v / 2 ^ k) mod 256.
Proof.
  intros Hk. change 255 with (Z.ones 8). rewrite Z.land_ones by lia.
  now rewrite Z.shiftr_div_pow2 by lia.
Qed.

Lemma len_int32_bytes (v : Z) : len (int32_bytes v) = 4.
Proof. reflexivity. Qed.

Lemma be_value_int_bytes (v : Z) :
  be_value (int32_bytes v) = v mod 2 ^ 32
  /\ be_value (int16_bytes v) = v mod 2 ^ 16.
Proof.
  unfold be_value, int32_bytes, int16_bytes. cbn [fold_left].
  rewrite !uchar_value.
  change (Z.land (Z.land (Z.shiftr v 24) 255) 255)
    with (Z.land (Z.land (Z.shiftr v 24) (Z.ones 8)) (Z.ones 8)).
  change (Z.land (Z.land (Z.shiftr v 16) 255) 255)
    with (Z.land (Z.land (Z.shiftr v 16) (Z.ones 8)) (Z.ones 8)).
  change (Z.land (Z.land (Z.shiftr v 8) 255) 255)
    with (Z.land (Z.land (Z.shiftr v 8) (Z.ones 8)) (Z.ones 8)).
  change (Z.land (Z.land (Z.shiftr v 0) 255) 255)
    with (Z.land (Z.land (Z.shiftr v 0) (Z.ones 8)) (Z.ones 8)).
  rewrite <- !Z.land_assoc, !Z.land_diag.
  change (Z.ones 8) with 255.
  rewrite !byte_of_shift by lia.
  change (2 ^ 0) with 1. rewrite Z.div_1_r.
  pose proof (Z.div_mod v 256 ltac:(lia)) as H0.
  pose proof (Z.mod_pos_bound v 256 ltac:(lia)) as B0.
  pose proof (Z.div_mod (v / 256) 256 ltac:(lia)) as H1.
  pose proof (Z.mod_pos_bound (v / 256) 256 ltac:(lia)) as B1.
  pose proof (Z.div_mod (v / 256 / 256) 256 ltac:(lia)) as H2.
  pose proof (Z.mod_pos_bound (v / 256 / 256) 256 ltac:(lia)) as B2.
  pose proof (Z.div_mod (v / 256 / 256 / 256) 256 ltac:(lia)) as H3.
  pose proof (Z.mod_pos_bound (v / 256 / 256 / 256) 256 ltac:(lia)) as B3.
  replace (v / 2 ^ 8) with (v / 256) by reflexivity.
  replace (v / 2 ^ 16) with (v / 256 / 256)
    by (rewrite Z.div_div by lia; reflexivity).
  replace (v / 2 ^ 24) with (v / 256 / 256 / 256)
    by (rewrite !Z.div_div by lia; reflexivity).
  split.
  - apply (Z.mod_unique v (2 ^ 32) (v / 256 / 256 / 256 / 256));
      [left; lia | lia].
  - apply (Z.mod_unique v (2 ^ 16) (v / 256 / 256)); [left; lia | lia].
Qed.

(** ** Strings *)

Lemma len_app (a b : list byte) : len (a ++ b) = len a + len b.
Proof. unfold len. rewrite length_app. lia. Qed.

Lemma skipn_length_app (a b : list byte) : skipn (length a) (a ++ b) = b.
Proof.
  rewrite skipn_app, skipn_all, Nat.sub_diag. reflexivity.
Qed.

Lemma c_str_free (s : list byte) : ~ In x00 (c_str s).
Proof.
  induction s as [|c s IH]; cbn [c_str]; [auto|].
  destruct (Byte.eqb c x00) eqn:E; [auto|].
  intros [H | H]; [|auto]. subst c. discriminate E.
Qed.

Lemma c_str_id (s : list byte) : ~ In x00 s -> c_str s = s.
Proof.
  induction s as [|c s IH]; cbn [c_str]; [auto|]. intros H.
  destruct (Byte.eqb c x00) eqn:E.
  - apply Byte.byte_dec_bl in E. subst c. exfalso. apply H. now left.
  - rewrite IH; [reflexivity|]. intros Hin. apply H. now right.
Qed.

Lemma to_N_inj (a b : byte) : Byte.to_N a = Byte.to_N b -> a = b.
Proof.
  intros H. pose proof (Byte.of_to_N a) as Ha.
  rewrite H, Byte.of_to_N in Ha. congruence.
Qed.

(** On strings without NUL [strncmp] compares the first [n] bytes. *)
Lemma strncmp_zero (n : nat) :
  forall a b : list byte,
    ~ In x00 a -> ~ In x00 b ->
    (strncmp a b n = 0 <-> firstn n a = firstn n b).
Proof.
  induction n as [|n IH]; intros a b Ha Hb; [cbn; tauto|].
  cbn [strncmp].
  destruct a as [|x a], b as [|y b]; cbn [hd tl firstn].
  - cbn. tauto.
  - destruct (Byte.eqb x00 y) eqn:E.
    + apply Byte.byte_dec_bl in E. subst y. exfalso. apply Hb. now left.
    + split; [|discriminate]. intros H. exfalso.
      apply Byte.eqb_false in E. apply E. apply to_N_inj.
      change (Byte.to_N x00) with 0%N in *. lia.
  - destruct (Byte.eqb x x00) eqn:E.
    + apply Byte.byte_dec_bl in E. subst x. exfalso. apply Ha. now left.
    + split; [|discriminate]. intros H. exfalso.
      apply Byte.eqb_false in E. apply E. apply to_N_inj.
      change (Byte.to_N x00) with 0%N in *. lia.
  - destruct (Byte.eqb x y) eqn:E.
    + apply Byte.byte_dec_bl in E. subst y.
      destruct (Byte.eqb x x00) eqn:E0.
      * apply Byte.byte_dec_bl in E0. subst x. exfalso. apply Ha. now left.
      * assert (Ha' : ~ In x00 a) by (intros H; apply Ha; now right).
        assert (Hb' : ~ In x00 b) by (intros H; apply Hb; now right).
        rewrite (IH a b Ha' Hb').
        split; [intros ->; reflexivity | intros H; now inversion H].
    + apply Byte.eqb_false in E. split.
      * intros H. exfalso. apply E. apply to_N_inj. lia.
      * intros H. inversion H. contradiction.
Qed.

Lemma byte_eqb_refl (c : byte) : Byte.eqb c c = true.
Proof. apply Byte.byte_dec_lb. reflexivity. Qed.

Lemma strchr_none (s : list byte) (c : byte) :
  ~ In c s -> strchr s c = None.
Proof.
  induction s as [|x s IH]; cbn [strchr]; [auto|]. intros H.
  destruct (Byte.eqb x c) eqn:E.
  - apply Byte.byte_dec_bl in E. exfalso. apply H. now left.
  - rewrite IH; [reflexivity|]. intros Hin. apply H. now right.
Qed.

Lemma strchr_first (s t : list byte) (c : byte) :
  ~ In c s -> strchr (s ++ c :: t) c = Some (length s).
Proof.
  induction s as [|x s IH]; cbn [strchr app length]; intros H.
  - now rewrite (byte_eqb_refl c).
  - destruct (Byte.eqb x c) eqn:E.
    + apply Byte.byte_dec_bl in E. exfalso. apply H. now left.
    + rewrite IH; [reflexivity|]. intros Hin. apply H. now right.
Qed.

Lemma rindex_none (s : list byte) (c : byte) :
  ~ In c s -> rindex s c = None.
Proof.
  induction s as [|x s IH]; cbn [rindex]; [auto|]. intros H.
  rewrite IH by (intros Hin; apply H; now right).
  destruct (Byte.eqb x c) eqn:E; [|reflexivity].
  apply Byte.byte_dec_bl in E. exfalso. apply H. now left.
Qed.

Lemma rindex_last (s t : list byte) (c : byte) :
  ~ In c t -> rindex (s ++ c :: t) c = Some (c :: t).
Proof.
  intros H. induction s as [|x s IH]; cbn [rindex app].
  - rewrite (rindex_none t c H). now rewrite (byte_eqb_refl c).
  - now rewrite IH.
Qed.

Lemma firstn_length_app (a b : list byte) : firstn (length a) (a ++ b) = a.
Proof.
  rewrite firstn_app, firstn_all, Nat.sub_diag. cbn. apply app_nil_r.
Qed.

(** ** The frames and the framer *)

Section FrameFacts.

Variable L : lzo_library.
Variable C : libc.
(** X1.  The three encoders append a big-endian field: read back as a
    number, the bytes [LZOStringAppendInt32], [LZOStringAppendInt16] and
    [LZOStringAppendChar] add to the string are the value reduced modulo
    2^32, 2^16 and 2^8. *)
Theorem encoders_big_endian (this : HdfsFile) (str : list byte) (v : Z) :
  be_value (skipn (length str) (snd (LZOStringAppendInt32 L this str v)))
  = v mod 2 ^ 32
  /\ be_value (skipn (length str) (snd (LZOStringAppendInt16 L this str v)))
     = v mod 2 ^ 16
  /\ be_value (skipn (length str) (snd (LZOStringAppendChar L this str v)))
     = v mod 2 ^ 8.
Proof.
  unfold LZOStringAppendInt32, LZOStringAppendInt16, LZOStringAppendChar.
  cbn [snd]. rewrite !skipn_length_app.
  destruct (be_value_int_bytes v) as [H32 H16].
  split; [exact H32 | split; [exact H16 |]].
  unfold be_value. cbn [fold_left]. rewrite uchar_value.
  change 255 with (Z.ones 8). rewrite <- Z.land_assoc, Z.land_diag.
  rewrite Z.land_ones by lia. reflexivity.
Qed.

(** The two length fields of [frame_of] are equal exactly for
    variant (b). *)
Lemma frame_of_length_fields (this : HdfsFile) (block : list byte) :
  len block < 2 ^ 32 ->
  (firstn 4 (frame_of L this block)
   = firstn 4 (skipn 4 (frame_of L this block))
   <-> len block <= len (snd (compress L this block))).
Proof.
  intros Hlen. unfold frame_of.
  pose proof (len_nonneg (snd (compress L this block))) as Hnn.
  destruct (len (snd (compress L this block)) <? len block) eqn:Hlt.
  - apply Z.ltb_lt in Hlt. unfold frame_variant_a.
    change (firstn 4 (int32_bytes (len block) ++ ?x))
      with (int32_bytes (len block)).
    split; [|lia]. intros H.
    change (int32_bytes (len block)
            = int32_bytes (len (snd (compress L this block)))) in H.
    apply (f_equal be_value) in H.
    rewrite !(proj1 (be_value_int_bytes _)) in H.
    rewrite !Z.mod_small in H by lia. lia.
  - apply Z.ltb_ge in Hlt. unfold frame_variant_b.
    split; [intros _; exact Hlt | intros _; reflexivity].
Qed.

(** X2.  The two length fields of a frame tell its variant: when the
    framer appends the frame of a block of less than 2^32 bytes, the
    first four bytes appended equal the next four exactly when the block
    was stored raw, that is when the compressor's output is not shorter
    than the block. *)
Theorem frame_variants_told_apart
    (this this' : HdfsFile) (cd cd' block : list byte) :
  len block < 2 ^ 32 ->
  LZOCompress_frame L this cd block = Some (this', cd') ->
  (firstn 4 (skipn (length cd) cd')
   = firstn 4 (skipn 4 (skipn (length cd) cd'))
   <-> len block <= len (snd (compress L this block))).
Proof.
  intros Hlen E.
  destruct (compress_ok L this block) eqn:Hok.
  - destruct (LZOCompress_frame_ok L this cd block Hlen Hok) as [ck E'].
    rewrite E' in E. injection E as _ <-.
    rewrite skipn_length_app. apply frame_of_length_fields. exact Hlen.
  - rewrite (LZOCompress_frame_fail L this cd block Hok) in E.
    discriminate.
Qed.

Lemma frame_of_len (this : HdfsFile) (block : list byte) :
  8 <= len (frame_of L this block) <= len block + 15.
Proof.
  unfold frame_of.
  pose proof (len_nonneg (snd (compress L this block))) as Hnn.
  pose proof (len_nonneg block) as Hnb.
  destruct (len (snd (compress L this block)) <? len block) eqn:Hlt.
  - apply Z.ltb_lt in Hlt. unfold frame_variant_a.
    rewrite !len_app, !len_int32_bytes. lia.
  - unfold frame_variant_b. rewrite !len_app, !len_int32_bytes. lia.
Qed.

Lemma frames_len (this : HdfsFile) (blocks : list (list byte)) :
  len (flat_map (frame_of L this) blocks)
  <= len (concat blocks) + 15 * Z.of_nat (length blocks).
Proof.
  induction blocks as [|b bl IH]; [reflexivity|].
  cbn [flat_map concat length]. rewrite !len_app.
  pose proof (frame_of_len this b). lia.
Qed.

Lemma firstn_add (a b : nat) (l : list byte) :
  firstn (a + b) l = firstn a l ++ firstn b (skipn a l).
Proof.
  revert l. induction a as [|a IH]; intros l; [reflexivity|].
  destruct l as [|x l]; cbn [Nat.add firstn skipn app].
  - now rewrite firstn_nil.
  - now rewrite IH.
Qed.

(** The blocks the loop slices, joined: the data up to the last full
    block. *)
Lemma blocks_concat (data : list byte) (n : nat) :
  concat (map (block_at data) (seq 0 n))
  = firstn (n * Z.to_nat lzo_block_size) data.
Proof.
  induction n as [|n IH]; [reflexivity|].
  rewrite seq_S, map_app, concat_app, IH. cbn [map concat Nat.add].
  rewrite app_nil_r. unfold block_at.
  replace (S n * Z.to_nat lzo_block_size)%nat
    with (n * Z.to_nat lzo_block_size + Z.to_nat lzo_block_size)%nat by lia.
  now rewrite firstn_add.
Qed.

Lemma framer_blocks_concat (data : list byte) :
  concat (framer_blocks data)
  = if len data / lzo_block_size =? 0 then data
    else firstn (Z.to_nat (len data / lzo_block_size * lzo_block_size)) data.
Proof.
  unfold framer_blocks. pose proof lzo_block_size_val as Hbs.
  destruct (len data / lzo_block_size =? 0) eqn:Hz.
  - cbn. apply app_nil_r.
  - rewrite blocks_concat. f_equal.
    pose proof (len_nonneg data).
    rewrite Z2Nat.inj_mul; [reflexivity| |lia].
    apply Z.div_pos; lia.
Qed.

Lemma framer_blocks_count (data : list byte) :
  Z.of_nat (length (framer_blocks data))
  = Z.max 1 (len data / lzo_block_size).
Proof.
  unfold framer_blocks. pose proof lzo_block_size_val as Hbs.
  pose proof (len_nonneg data).
  assert (0 <= len data / lzo_block_size) by (apply Z.div_pos; lia).
  destruct (len data / lzo_block_size =? 0) eqn:Hz.
  - apply Z.eqb_eq in Hz. rewrite Hz. reflexivity.
  - apply Z.eqb_neq in Hz. rewrite length_map, length_seq. lia.
Qed.

Lemma len_firstn_le (n : nat) (l : list byte) : len (firstn n l) <= len l.
Proof.
  unfold len. rewrite length_firstn. lia.
Qed.

(** X3.  What the framer returns is never empty and grows the data by at
    most 15 bytes a frame: when [LZOCompress] frames (a forced flush, or
    at least a block of data), with the work buffers allocated and a
    compressor that succeeds, its output has at least the 8 bytes of the
    two length fields and at most the length of the data plus 15 times
    the number of blocks. *)
Theorem LZOCompress_expansion_bound
    (this : HdfsFile) (inputData : list byte) (force : bool) :
  len (LZObacklogBuffer this ++ c_str inputData) < 2 ^ 31 ->
  force = true
  \/ lzo_block_size <= len (LZObacklogBuffer this ++ c_str inputData) ->
  buffers_allocated L C this = true ->
  forallb (compress_ok L this)
    (framer_blocks (LZObacklogBuffer this ++ c_str inputData)) = true ->
  exists out this',
    LZOCompress L C this inputData force = Returns (out, true, this')
    /\ 8 <= len out
    /\ len out
       <= len (LZObacklogBuffer this ++ c_str inputData)
          + 15 * Z.max 1
                   (len (LZObacklogBuffer this ++ c_str inputData)
                    / lzo_block_size).
Proof.
  intros Hint Hc Hmem Hok.
  set (data := LZObacklogBuffer this ++ c_str inputData) in *.
  pose proof (LZOCompress_consume L C this inputData force) as E.
  cbv zeta in E. fold data in E. rewrite E by assumption. clear E.
  destruct (frame_blocks_ok L (framer_blocks data)
              (set_LZObacklogBuffer this []) []
              (framer_blocks_len _ Hint) Hok) as [ck E].
  rewrite E. cbn [finish app]. eexists. eexists.
  split; [reflexivity|].
  change (frame_of L (set_LZObacklogBuffer this []))
    with (frame_of L this).
  split.
  - unfold framer_blocks.
    destruct (len data / lzo_block_size =? 0) eqn:Hz.
    + cbn [flat_map]. rewrite app_nil_r. apply frame_of_len.
    + apply Z.eqb_neq in Hz.
      destruct (Z.to_nat (len data / lzo_block_size)) as [|n] eqn:Hn.
      * pose proof (len_nonneg data). pose proof lzo_block_size_val as Hbs.
        assert (0 <= len data / lzo_block_size)
          by (apply Z.div_pos; lia). lia.
      * rewrite <- cons_seq. cbn [map flat_map]. rewrite len_app.
        pose proof (frame_of_len this (block_at data 0)).
        pose proof (len_nonneg
                      (flat_map (frame_of L this)
                         (map (block_at data) (seq 1 n)))). lia.
  - pose proof (frames_len this (framer_blocks data)) as Hf.
    rewrite framer_blocks_count in Hf.
    rewrite framer_blocks_concat in Hf.
    destruct (len data / lzo_block_size =? 0); [exact Hf|].
    pose proof (len_firstn_le
                  (Z.to_nat (len data / lzo_block_size * lzo_block_size))
                  data). lia.
Qed.

(** X4.  When [LZOCompress] frames (a forced flush, or at least a block
    of data, below 2^31 bytes), with the work buffers allocated and a
    compressor that succeeds on every block, no byte is lost if the data
    -- the backlog followed by the input as a C string -- is shorter than
    a block or a whole number of blocks: the output is then the frames of
    blocks of at most [lzo_block_size] bytes whose concatenation is the
    data, and the backlog is left empty. *)
Theorem LZOCompress_frames_whole_input
    (this : HdfsFile) (inputData : list byte) (force : bool) :
  len (LZObacklogBuffer this ++ c_str inputData) < 2 ^ 31 ->
  force = true
  \/ lzo_block_size <= len (LZObacklogBuffer this ++ c_str inputData) ->
  buffers_allocated L C this = true ->
  forallb (compress_ok L this)
    (framer_blocks (LZObacklogBuffer this ++ c_str inputData)) = true ->
  len (LZObacklogBuffer this ++ c_str inputData) < lzo_block_size
  \/ len (LZObacklogBuffer this ++ c_str inputData) mod lzo_block_size = 0 ->
  exists blocks this',
    LZOCompress L C this inputData force
    = Returns (flat_map (frame_of L this) blocks, true, this')
    /\ concat blocks = LZObacklogBuffer this ++ c_str inputData
    /\ Forall (fun b => len b <= lzo_block_size) blocks
    /\ LZObacklogBuffer this' = [].
Proof.
  intros Hint Hc Hmem Hok Hexact.
  set (data := LZObacklogBuffer this ++ c_str inputData) in *.
  pose proof lzo_block_size_val as Hbs. pose proof (len_nonneg data) as Hnn.
  pose proof (LZOCompress_consume L C this inputData force) as E.
  cbv zeta in E. fold data in E. rewrite E by assumption. clear E.
  destruct (frame_blocks_ok L (framer_blocks data)
              (set_LZObacklogBuffer this []) []
              (framer_blocks_len _ Hint) Hok) as [ck E].
  rewrite E. cbn [finish app].
  exists (framer_blocks data). eexists.
  split; [reflexivity|]. split; [|split; [|reflexivity]].
  - rewrite framer_blocks_concat.
    destruct (len data / lzo_block_size =? 0) eqn:Hz; [reflexivity|].
    destruct Hexact as [Hlt | Hmod].
    + apply Z.eqb_neq in Hz. rewrite Z.div_small in Hz by lia. lia.
    + replace (len data / lzo_block_size * lzo_block_size) with (len data).
      * apply firstn_len.
      * pose proof (Z.div_mod (len data) lzo_block_size ltac:(lia)). lia.
  - unfold framer_blocks.
    destruct (len data / lzo_block_size =? 0) eqn:Hz.
    + constructor; [|constructor].
      apply Z.eqb_eq in Hz.
      destruct Hexact as [Hlt | Hmod]; [lia|].
      pose proof (Z.div_mod (len data) lzo_block_size ltac:(lia)). lia.
    + apply Forall_forall. intros b Hb.
      apply in_map_iff in Hb as (k & <- & _). apply block_at_len.
Qed.

End FrameFacts.

(** ** Writing and closing, continued *)

Section MoreWriterFacts.

Variable L : lzo_library.
Variable C : libc.
Variable B : hdfs_backend.

Lemma set_hfile_same (this : HdfsFile) :
  set_hfile this (hfile this) = this.
Proof. now destruct this. Qed.

Lemma frame_of_head (this : HdfsFile) (block : list byte) :
  exists rest, frame_of L this block = int32_bytes (len block) ++ rest.
Proof.
  unfold frame_of, frame_variant_a, frame_variant_b.
  destruct (len (snd (compress L this block)) <? len block); eexists;
    reflexivity.
Qed.

Lemma c_str_nonempty (s : list byte) :
  c_str s <> [] -> exists c s', s = c :: s' /\ c <> x00.
Proof.
  destruct s as [|c s']; cbn [c_str]; [congruence|].
  destruct (Byte.eqb c x00) eqn:E; [congruence|]. intros _.
  exists c, s'. split; [reflexivity|]. intros ->. discriminate E.
Qed.

Lemma block_at_0_len (data : list byte) :
  lzo_block_size <= len data -> len (block_at data 0) = lzo_block_size.
Proof.
  intros H. pose proof lzo_block_size_val as Hbs.
  unfold block_at, len in *. cbn [Nat.mul skipn].
  rewrite length_firstn. lia.
Qed.

(** The frames of an input of at least a block start with a zero byte. *)
Lemma frames_start_with_zero (this : HdfsFile) (data : list byte) :
  lzo_block_size <= len data ->
  exists rest,
    flat_map (frame_of L this) (framer_blocks data) = x00 :: rest.
Proof.
  intros H. pose proof lzo_block_size_val as Hbs.
  unfold framer_blocks.
  assert (Hq : 1 <= len data / lzo_block_size).
  { apply Z.div_le_lower_bound; lia. }
  replace (len data / lzo_block_size =? 0) with false
    by (symmetry; apply Z.eqb_neq; lia).
  destruct (Z.to_nat (len data / lzo_block_size)) as [|n] eqn:Hn; [lia|].
  rewrite <- cons_seq. cbn [map flat_map].
  destruct (frame_of_head this (block_at data 0)) as [rest E].
  rewrite E, (block_at_0_len data H), Hbs.
  eexists. reflexivity.
Qed.

(** X6.  [write] on an open, compressing writer, when the backlog
    followed by the data as a C string has at least a block and less than
    2^31 bytes, the work buffers are allocated and the compressor
    succeeds on every block: the call performs exactly one [hdfsWrite],
    holding the frames of the full blocks of that string -- the bytes
    after the last full block are in no frame --, reports whether the
    sink took all of it, and leaves the backlog empty. *)
Theorem write_emits_frames
    (this : HdfsFile) (tr : trace) (data : list byte) :
  hfile this <> NULL -> LZOCompressionLevel this <> 0 ->
  len (LZObacklogBuffer this) < lzo_block_size ->
  lzo_block_size <= len (LZObacklogBuffer this ++ c_str data) < 2 ^ 31 ->
  buffers_allocated L C this = true ->
  forallb (compress_ok L this)
    (framer_blocks (LZObacklogBuffer this ++ c_str data)) = true ->
  exists ck,
    write L C B this tr data
    = Returns
        (hdfsWrite_ret B tr (hfile this)
           (flat_map (frame_of L this)
              (framer_blocks (LZObacklogBuffer this ++ c_str data)))
           (to_int
              (len (flat_map (frame_of L this)
                      (framer_blocks (LZObacklogBuffer this ++ c_str data)))))
         =? to_int
              (len (flat_map (frame_of L this)
                      (framer_blocks (LZObacklogBuffer this ++ c_str data)))),
         set_lzo_checksum (set_LZObacklogBuffer this []) ck,
         tr ++ [CallWrite (hfile this)
                  (flat_map (frame_of L this)
                     (framer_blocks (LZObacklogBuffer this ++ c_str data)))
                  (to_int
                     (len (flat_map (frame_of L this)
                             (framer_blocks
                                (LZObacklogBuffer this ++ c_str data)))))]).
Proof.
  intros Hh Hl Hshort [Hge Hint] Hmem Hok.
  set (data' := LZObacklogBuffer this ++ c_str data) in *.
  unfold write, isOpen.
  apply Z.eqb_neq in Hh, Hl. rewrite Hh. cbn [negb]. rewrite Hl. cbn [negb].
  pose proof (LZOCompress_consume L C this data false) as E.
  cbv zeta in E. fold data' in E. rewrite E by auto. clear E.
  destruct (frame_blocks_ok L (framer_blocks data')
              (set_LZObacklogBuffer this []) []
              (framer_blocks_len _ Hint) Hok) as [ck E].
  rewrite E. cbn [finish app].
  change (frame_of L (set_LZObacklogBuffer this []))
    with (frame_of L this).
  assert (Hne : string_eqb
                  (flat_map (frame_of L this) (framer_blocks data')) data
                = false).
  { destruct (string_eqb (flat_map (frame_of L this) (framer_blocks data'))
                data) eqn:Heq; [|reflexivity].
    apply string_eqb_eq in Heq.
    destruct (frames_start_with_zero this data' Hge) as [rest Hz].
    rewrite Hz in Heq.
    destruct (c_str_nonempty data) as (c & s' & -> & Hc).
    - intros Hnil. subst data'. rewrite Hnil, app_nil_r in Hge. lia.
    - inversion Heq. congruence. }
  rewrite Hne. cbn [negb andb]. unfold hdfsWrite.
  cbn [hfile set_lzo_checksum set_LZObacklogBuffer].
  exists ck. reflexivity.
Qed.

(** X5.  With compression off, an open writer passes every [write]
    through: a sequence of writes performs one [hdfsWrite] per call, with
    the bytes of the call in full and their length, and leaves the writer
    as it was. *)
Theorem raw_writes_pass_through (ds : list (list byte)) :
  forall (this : HdfsFile) (tr : trace),
    hfile this <> NULL -> LZOCompressionLevel this = 0 ->
    run L C B this tr (map DoWrite ds)
    = Returns (this,
               tr ++ map (fun d => CallWrite (hfile this) d (to_int (len d)))
                       ds).
Proof.
  induction ds as [|d ds IH]; intros this tr Hh Hl.
  - cbn. now rewrite app_nil_r.
  - cbn [map run step]. unfold write, isOpen.
    pose proof Hh as Hh'. apply Z.eqb_neq in Hh'. rewrite Hh'.
    cbn [negb]. rewrite Hl. cbn [Z.eqb negb]. unfold hdfsWrite.
    rewrite IH by assumption. rewrite <- app_assoc. reflexivity.
Qed.

(** X8.  [close] is idempotent: on the writer and the trace a [close]
    leaves behind, a second [close] changes nothing and calls nothing. *)
Theorem close_twice (this this' : HdfsFile) (tr tr' : trace) :
  close L C B this tr = Returns (this', tr') ->
  close L C B this' tr' = Returns (this', tr').
Proof.
  unfold close at 1.
  destruct (fileSys this =? NULL) eqn:Hfs; cbn [negb].
  { intros H. inversion H; subst. unfold close. rewrite Hfs. reflexivity. }
  assert (Hdone : forall w : HdfsFile,
             fileSys w = fileSys this ->
             close L C B (set_hfile w NULL) tr'
             = Returns (set_hfile w NULL, tr')).
  { intros w Hw. unfold close. cbn [fileSys hfile set_hfile].
    rewrite Hw, Hfs. reflexivity. }
  destruct (hfile this =? NULL) eqn:Hh; cbn [negb].
  { intros H. inversion H; subst. now apply Hdone. }
  destruct (LZOCompressionLevel this =? 0) eqn:Hl; cbn [negb].
  { intros H. inversion H; subst. now apply Hdone. }
  destruct (LZOCompress L C this [] true) as [[[buf good] this1]| |] eqn:E;
    try discriminate.
  intros H. inversion H; subst. apply Hdone.
  apply LZOCompress_state in E. destruct E as [-> _]. reflexivity.
Qed.

(** X9.  A [write] on a connected writer with no open handle, whose file
    exists, opens the file itself in append mode, turns compression off
    and writes the data raw, whatever the compression level was. *)
Theorem write_reopens_for_append
    (this : HdfsFile) (tr : trace) (data : list byte) :
  fileSys this <> NULL -> hfile this = NULL ->
  hdfsExists_ret B tr (c_str (filename this)) = 0 ->
  hdfsOpenFile_ret B (tr ++ [CallExists (c_str (filename this))])
    (c_str (filename this)) (Z.lor O_WRONLY O_APPEND) <> NULL ->
  exists h ok,
    write L C B this tr data
    = Returns (ok,
               set_hfile (set_LZOCompressionLevel this 0) h,
               tr ++ [CallExists (c_str (filename this));
                      CallOpenFile (c_str (filename this))
                        (Z.lor O_WRONLY O_APPEND);
                      CallWrite h data (to_int (len data))])
    /\ h <> NULL.
Proof.
  intros Hfs Hh He Ho.
  destruct (openWrite_cases L C B this tr)
    as [[[?|?] _] | [(_ & _ & _ & E) | [(_ & _ & ? & _)
                                        | (_ & _ & ? & _)]]];
    try contradiction.
  exists (hdfsOpenFile_ret B (tr ++ [CallExists (c_str (filename this))])
            (c_str (filename this)) (Z.lor O_WRONLY O_APPEND)).
  exists (hdfsWrite_ret B
            (tr ++ [CallExists (c_str (filename this));
                    CallOpenFile (c_str (filename this))
                      (Z.lor O_WRONLY O_APPEND)])
            (hdfsOpenFile_ret B (tr ++ [CallExists (c_str (filename this))])
               (c_str (filename this)) (Z.lor O_WRONLY O_APPEND))
            data (to_int (len data))
          =? to_int (len data)).
  split; [|exact Ho].
  unfold write, isOpen. rewrite Hh. cbn [Z.eqb NULL negb]. rewrite E.
  apply Z.eqb_neq in Ho. rewrite Ho. cbn [negb].
  cbn [LZOCompressionLevel set_hfile set_LZOCompressionLevel Z.eqb negb].
  unfold hdfsWrite. cbn [hfile set_hfile].
  rewrite <- app_assoc. reflexivity.
Qed.

(** X10.  A writer whose connection failed does nothing: [openRead],
    [openWrite] and [write] report failure and [close] returns, the writer
    and the trace being left as they were. *)
Theorem unconnected_writer_is_inert
    (this : HdfsFile) (tr : trace) (data : list byte) :
  fileSys this = NULL -> hfile this = NULL ->
  openRead B this tr = (false, this, tr)
  /\ openWrite L C B this tr = (false, this, tr)
  /\ write L C B this tr data = Returns (false, this, tr)
  /\ close L C B this tr = Returns (this, tr).
Proof.
  intros Hfs Hh. repeat split.
  - unfold openRead. rewrite Hfs. change (NULL =? NULL) with true.
    cbn [negb]. rewrite Hh. reflexivity.
  - unfold openWrite. rewrite Hfs. reflexivity.
  - unfold write, isOpen, openWrite. rewrite Hh, Hfs. reflexivity.
  - unfold close. rewrite Hfs. reflexivity.
Qed.

(** X11.  Closing a connected, open, compressing writer with nothing
    queued still flushes, when the work buffers are allocated and the
    compressor succeeds on the empty block: the forced [LZOCompress]
    frames the empty string, so [close] writes eight zero bytes -- two
    zero length fields -- before the four zero bytes of the terminator,
    and closes the handle. *)
Theorem close_flushes_empty_frame (this : HdfsFile) (tr : trace) :
  fileSys this <> NULL -> hfile this <> NULL ->
  LZOCompressionLevel this <> 0 ->
  LZObacklogBuffer this = [] ->
  buffers_allocated L C this = true ->
  compress_ok L this [] = true ->
  exists this',
    close L C B this tr
    = Returns (this',
               tr ++ [CallWrite (hfile this) (repeat x00 8) 8;
                      CallWrite (hfile this) (repeat x00 4) 4;
                      CallCloseFile (hfile this)]).
Proof.
  intros Hfs Hh Hl Hb Hmem Hok. pose proof lzo_block_size_val as Hbs.
  destruct (LZOCompress_flush L C this) as [ck E].
  { rewrite Hb, Hbs. reflexivity. }
  rewrite Hb, Hmem, Hok in E. cbn [andb] in E.
  assert (Hf : frame_of L this [] = repeat x00 8).
  { unfold frame_of.
    pose proof (len_nonneg (snd (compress L this []))).
    replace (len (snd (compress L this [])) <? len [])
      with false by (symmetry; apply Z.ltb_ge; exact H).
    reflexivity. }
  rewrite Hf in E.
  unfold close. apply Z.eqb_neq in Hfs, Hh, Hl.
  rewrite Hfs, Hh, Hl. cbn [negb]. rewrite E.
  unfold hdfsWrite, hdfsCloseFile.
  cbn [snd hfile set_lzo_checksum set_LZObacklogBuffer].
  eexists. rewrite <- !app_assoc. reflexivity.
Qed.


End MoreWriterFacts.

(** ** Sequences of calls *)

Section RunFacts.

Variable L : lzo_library.
Variable C : libc.
Variable B : hdfs_backend.

Lemma LZOCompress_returns (this : HdfsFile) (inputData : list byte)
    (force : bool) :
  len (LZObacklogBuffer this ++ c_str inputData) < 2 ^ 31 ->
  exists out ok this',
    LZOCompress L C this inputData force = Returns (out, ok, this').
Proof.
  intros Hint.
  set (data := LZObacklogBuffer this ++ c_str inputData) in *.
  assert (Hcase : force = false /\ len data < lzo_block_size
                  \/ (force = true \/ lzo_block_size <= len data)).
  { destruct force; [right; now left|].
    destruct (Z.lt_ge_cases (len data) lzo_block_size); [left|right]; auto. }
  destruct Hcase as [[-> Hlt] | Hc].
  - rewrite LZOCompress_decline by exact Hlt. eauto.
  - destruct (buffers_allocated L C this) eqn:Hmem.
    + pose proof (LZOCompress_consume L C this inputData force) as E.
      cbv zeta in E. rewrite E by assumption.
      destruct (frame_blocks L (set_LZObacklogBuffer this []) []
                  (framer_blocks (LZObacklogBuffer this ++ c_str inputData)))
        as [[cd|] this1]; cbn [finish]; eauto.
    + pose proof (LZOCompress_consume_eq L C this inputData force) as E.
      cbv zeta in E. rewrite E by assumption. rewrite Hmem. cbn [negb].
      eauto.
Qed.

Lemma write_returns (this : HdfsFile) (tr : trace) (data : list byte) :
  len (LZObacklogBuffer this) < lzo_block_size ->
  len (c_str data) < 2 ^ 31 - lzo_block_size ->
  exists ok this' tr', write L C B this tr data = Returns (ok, this', tr').
Proof.
  intros Hlt Hd. pose proof lzo_block_size_val as Hbs. unfold write.
  assert (Hopen : len (LZObacklogBuffer
                         (snd (fst (if negb (isOpen this)
                                    then openWrite L C B this tr
                                    else (true, this, tr)))))
                  < lzo_block_size).
  { destruct (negb (isOpen this)); [|exact Hlt].
    destruct (openWrite_backlog L C B this tr) as [-> | ->];
      [exact Hlt | rewrite Hbs; reflexivity]. }
  destruct (if negb (isOpen this) then openWrite L C B this tr
            else (true, this, tr)) as [[opened this1] tr1].
  cbn [fst snd] in Hopen.
  destruct opened; cbn [negb]; [|eauto].
  destruct (LZOCompressionLevel this1 =? 0); cbn [negb].
  { unfold hdfsWrite. eauto. }
  destruct (LZOCompress_returns this1 data false) as (cd & ok & this2 & E).
  { rewrite len_app. lia. }
  rewrite E. unfold hdfsWrite.
  destruct (negb (string_eqb cd data) && ok); [|destruct (negb ok)]; eauto.
Qed.

Lemma close_returns (this : HdfsFile) (tr : trace) :
  len (LZObacklogBuffer this) < lzo_block_size ->
  exists this' tr',
    close L C B this tr = Returns (this', tr')
    /\ len (LZObacklogBuffer this') < lzo_block_size.
Proof.
  intros Hlt. pose proof lzo_block_size_val as Hbs. unfold close.
  destruct (negb (fileSys this =? NULL)); [|eauto].
  destruct (negb (hfile this =? NULL)); [|eauto].
  destruct (negb (LZOCompressionLevel this =? 0)); [|eauto].
  destruct (LZOCompress_flush L C this Hlt) as [ck E]. rewrite E.
  destruct (buffers_allocated L C this
            && compress_ok L this (LZObacklogBuffer this));
    eexists; eexists; (split; [reflexivity|]);
    cbn [LZObacklogBuffer set_hfile set_lzo_checksum set_LZObacklogBuffer];
    rewrite Hbs; reflexivity.
Qed.

(** X7.  Every sequence of [openWrite], [write], [close] and
    [setShouldLZOCompress] calls runs to its end, and the backlog stays
    shorter than a block throughout, provided it starts so and each
    written string, with a block more, fits in an [int]. *)
Theorem run_keeps_backlog_short (ops : list operation) :
  forall (this : HdfsFile) (tr : trace),
    len (LZObacklogBuffer this) < lzo_block_size ->
    forallb operation_fits ops = true ->
    exists this' tr',
      run L C B this tr ops = Returns (this', tr')
      /\ len (LZObacklogBuffer this') < lzo_block_size.
Proof.
  pose proof lzo_block_size_val as Hbs.
  induction ops as [|o ops IH]; intros this tr Hlt Hfit.
  - cbn. eauto.
  - cbn [forallb] in Hfit. apply andb_true_iff in Hfit as [Ho Hops].
    cbn [run].
    assert (Hstep : exists this1 tr1,
               step L C B this tr o = Returns (this1, tr1)
               /\ len (LZObacklogBuffer this1) < lzo_block_size).
    { destruct o as [|data| |level]; cbn [step].
      - pose proof (openWrite_backlog L C B this tr) as Hb.
        destruct (openWrite L C B this tr) as [[ok this1] tr1].
        cbn [fst snd] in Hb. exists this1, tr1. split; [reflexivity|].
        destruct Hb as [-> | ->]; [exact Hlt | rewrite Hbs; reflexivity].
      - cbn [operation_fits] in Ho. apply Z.ltb_lt in Ho.
        destruct (write_returns this tr data Hlt Ho)
          as (ok & this1 & tr1 & E).
        rewrite E. exists this1, tr1. split; [reflexivity|].
        exact (write_backlog_short L C B _ _ _ _ _ _ Hlt E).
      - apply close_returns. exact Hlt.
      - eexists. eexists. split; [reflexivity|].
        unfold setShouldLZOCompress.
        destruct (negb (lzo_init L =? LZO_E_OK)); exact Hlt. }
    destruct Hstep as (this1 & tr1 & E & Hlt1). rewrite E.
    apply IH; assumption.
Qed.

End RunFacts.

Section SessionFacts.

Variable L : lzo_library.
Variable C : libc.
Variable B : hdfs_backend.

Lemma run_app (ops1 ops2 : list operation) :
  forall (this : HdfsFile) (tr : trace),
    run L C B this tr (ops1 ++ ops2)
    = match run L C B this tr ops1 with
      | Returns (this', tr') => run L C B this' tr' ops2
      | Throws => Throws
      | OutOfFuel => OutOfFuel
      end.
Proof.
  induction ops1 as [|o ops1 IH]; intros this tr; [reflexivity|].
  cbn [app run].
  destruct (step L C B this tr o) as [[this1 tr1]| |]; auto.
Qed.

(** Short writes pile up in the backlog. *)
Lemma writes_queue (ds : list (list byte)) :
  forall (this : HdfsFile) (tr : trace),
    hfile this <> NULL -> LZOCompressionLevel this <> 0 ->
    Forall (fun d => ~ In x00 d) ds ->
    len (LZObacklogBuffer this ++ concat ds) < lzo_block_size ->
    run L C B this tr (map DoWrite ds)
    = Returns (set_LZObacklogBuffer this (LZObacklogBuffer this ++ concat ds),
               tr).
Proof.
  induction ds as [|d ds IH]; intros this tr Hh Hl Hnul Hlt.
  - cbn. now rewrite app_nil_r, set_LZObacklogBuffer_same.
  - inversion Hnul as [|? ? Hd Hds]; subst.
    cbn [map run step concat] in *.
    rewrite app_assoc in Hlt.
    rewrite (write_queues L C B this tr d Hh Hl).
    + rewrite (c_str_id d Hd).
      rewrite IH; try assumption.
      cbn [LZObacklogBuffer set_LZObacklogBuffer].
      rewrite <- app_assoc. reflexivity.
    + rewrite (c_str_id d Hd). rewrite len_app in Hlt.
      pose proof (len_nonneg (concat ds)). lia.
Qed.

Lemma lzo_header_of_hfile (this : HdfsFile) (h : hdfsFile)
    (base : list byte) :
  snd (lzo_header_of L C (set_hfile this h) base)
  = snd (lzo_header_of L C this base).
Proof. rewrite !lzo_header_of_eq. reflexivity. Qed.

(** [close] when the flush succeeds. *)
Lemma close_flush_ok (this : HdfsFile) (tr : trace) :
  fileSys this <> NULL -> hfile this <> NULL ->
  LZOCompressionLevel this <> 0 ->
  len (LZObacklogBuffer this) < lzo_block_size ->
  buffers_allocated L C this = true ->
  compress_ok L this (LZObacklogBuffer this) = true ->
  exists ck,
    close L C B this tr
    = Returns
        (set_hfile (set_lzo_checksum (set_LZObacklogBuffer this []) ck) NULL,
         tr ++ [CallWrite (hfile this)
                  (frame_of L this (LZObacklogBuffer this))
                  (to_int (len (frame_of L this (LZObacklogBuffer this))));
                CallWrite (hfile this) [x00; x00; x00; x00] 4;
                CallCloseFile (hfile this)]).
Proof.
  intros Hfs Hh Hl Hlt Hmem Hok. apply Z.eqb_neq in Hfs, Hh, Hl.
  unfold close. rewrite Hfs, Hh, Hl. cbn [negb].
  destruct (LZOCompress_flush L C this Hlt) as [ck E].
  rewrite Hmem, Hok in E. cbn [andb] in E. rewrite E.
  exists ck. unfold hdfsWrite, hdfsCloseFile.
  cbn [snd hfile set_lzo_checksum set_LZObacklogBuffer].
  rewrite <- !app_assoc. reflexivity.
Qed.

(** Short writes followed by [close] on an open compressing writer. *)
Lemma writes_then_close (this : HdfsFile) (tr : trace)
    (ds : list (list byte)) :
  fileSys this <> NULL -> hfile this <> NULL ->
  LZOCompressionLevel this <> 0 ->
  LZObacklogBuffer this = [] ->
  Forall (fun d => ~ In x00 d) ds ->
  len (concat ds) < lzo_block_size ->
  buffers_allocated L C this = true ->
  compress_ok L this (concat ds) = true ->
  exists ck,
    run L C B this tr (map DoWrite ds ++ [DoClose])
    = Returns
        (set_hfile (set_lzo_checksum (set_LZObacklogBuffer this []) ck) NULL,
         tr ++ [CallWrite (hfile this) (frame_of L this (concat ds))
                  (to_int (len (frame_of L this (concat ds))));
                CallWrite (hfile this) [x00; x00; x00; x00] 4;
                CallCloseFile (hfile this)]).
Proof.
  intros Hfs Hh Hl Hb Hnul Hlt Hmem Hok.
  rewrite run_app.
  rewrite writes_queue;
    [ | exact Hh | exact Hl | exact Hnul | rewrite Hb; exact Hlt ].
  rewrite Hb. cbn [app run step].
  destruct (close_flush_ok (set_LZObacklogBuffer this (concat ds)) tr)
    as [ck Ec]; try assumption.
  rewrite Ec. exists ck. reflexivity.
Qed.

(** X21.  A whole session of a connected, compressing writer without
    handle, on a name that does not exist and that the sink opens, with
    the work buffers allocated and a compressor that succeeds on the
    data: [openWrite], writes of NUL-free strings that together stay
    below a block, then [close], send to the sink the header, one frame
    of the concatenation of the strings, the terminator, and nothing
    else; the handle is closed and the backlog empty. *)
Theorem short_stream_is_one_frame
    (this : HdfsFile) (tr : trace) (ds : list (list byte)) :
  fileSys this <> NULL -> hfile this = NULL ->
  LZOCompressionLevel this <> 0 ->
  hdfsExists_ret B tr (c_str (filename this)) <> 0 ->
  hdfsOpenFile_ret B (tr ++ [CallExists (c_str (filename this))])
    (c_str (filename this)) O_WRONLY <> NULL ->
  Forall (fun d => ~ In x00 d) ds ->
  len (concat ds) < lzo_block_size ->
  buffers_allocated L C this = true ->
  compress_ok L this (concat ds) = true ->
  let h := hdfsOpenFile_ret B (tr ++ [CallExists (c_str (filename this))])
             (c_str (filename this)) O_WRONLY in
  let header := snd (lzo_header_of L C this (base_filename this)) in
  exists this',
    run L C B this tr (DoOpenWrite :: map DoWrite ds ++ [DoClose])
    = Returns
        (this',
         tr ++ [CallExists (c_str (filename this));
                CallOpenFile (c_str (filename this)) O_WRONLY;
                CallWrite h header (to_int (len header));
                CallWrite h (frame_of L this (concat ds))
                  (to_int (len (frame_of L this (concat ds))));
                CallWrite h [x00; x00; x00; x00] 4;
                CallCloseFile h])
    /\ hfile this' = NULL /\ LZObacklogBuffer this' = [].
Proof.
  intros Hfs Hh Hl He Ho Hnul Hlt Hmem Hok h header.
  cbn [run step].
  destruct (openWrite_cases L C B this tr)
    as [[[?|?] _] | [(_ & _ & ? & _) | [(_ & _ & _ & [?|?] & _)
                                        | (_ & _ & _ & _ & _ & E)]]];
    try contradiction.
  rewrite E. clear E. fold h. rewrite lzo_header_of_hfile. fold header.
  rewrite lzo_header_of_eq. cbn [fst].
  match goal with
  | |- context [run L C B ?w ?t _] =>
      destruct (writes_then_close w t ds) as [ck Ec];
        [ exact Hfs | exact Ho | exact Hl | reflexivity | exact Hnul
        | exact Hlt | exact Hmem | exact Hok | ]
  end.
  rewrite Ec. eexists.
  split; [rewrite <- !app_assoc; reflexivity | split; reflexivity].
Qed.

End SessionFacts.

(** ** Connecting, listing and the header *)

Section ConnectionFacts.

Variable hdfsConnectNewInstance : list byte -> Z -> hdfsFS.
Variable strtol : list byte -> Z.

Lemma proto_prefix (uri rest : list byte) :
  c_str uri = proto ++ rest ->
  strncmp proto (c_str uri) (length proto) = 0.
Proof.
  intros E. apply strncmp_zero.
  - cbn. intuition discriminate.
  - apply c_str_free.
  - rewrite E, firstn_length_app. reflexivity.
Qed.

(** X14.  A name that does not start with [hdfs://] is connected to the
    cluster [default], port 0. *)
Theorem connectToPath_default (uri : list byte) :
  firstn 7 (c_str uri) <> proto ->
  connectToPath hdfsConnectNewInstance strtol uri
  = hdfsConnectNewInstance default_cluster 0.
Proof.
  intros H. unfold connectToPath.
  destruct (strncmp proto (c_str uri) (length proto) =? 0) eqn:E;
    [|reflexivity].
  exfalso. apply H. apply Z.eqb_eq in E.
  apply strncmp_zero in E.
  - symmetry. exact E.
  - cbn. intuition discriminate.
  - apply c_str_free.
Qed.

(** X15.  A name [hdfs://host] or [hdfs://host:], without a port after
    the host, is not connected: [connectToPath] returns [NULL] whatever
    the cluster would answer. *)
Theorem connectToPath_missing_port (uri host tail : list byte) :
  c_str uri = proto ++ host ++ tail ->
  ~ In x3a host ->
  tail = [] \/ tail = [x3a] ->
  connectToPath hdfsConnectNewInstance strtol uri = NULL.
Proof.
  intros E Hhost Htail. unfold connectToPath.
  rewrite (proto_prefix uri _ E). cbn [Z.eqb negb].
  rewrite E, skipn_length_app.
  destruct Htail as [-> | ->].
  - rewrite app_nil_r, (strchr_none host x3a Hhost). reflexivity.
  - rewrite (strchr_first host [] x3a Hhost).
    replace (nth (S (length host)) (host ++ [x3a]) x00) with x00;
      [reflexivity|].
    symmetry. apply nth_overflow. rewrite length_app. cbn. lia.
Qed.

(** X16.  A name [hdfs://host:rest] with a non-empty [rest] is connected
    to [host] at the port [strtol] reads in [rest], and is refused when
    that port is negative or above the largest [tPort]; the colon taken
    is the first one. *)
Theorem connectToPath_host_port (uri host : list byte) (c : byte)
    (rest : list byte) :
  c_str uri = proto ++ host ++ x3a :: c :: rest ->
  ~ In x3a host ->
  connectToPath hdfsConnectNewInstance strtol uri
  = if (strtol (c :: rest) <? 0) || (tPort_max <? strtol (c :: rest))
    then NULL
    else hdfsConnectNewInstance host (strtol (c :: rest)).
Proof.
  intros E Hhost. unfold connectToPath.
  rewrite (proto_prefix uri _ E). cbn [Z.eqb negb].
  pose proof (c_str_free uri) as Hfree. rewrite E in Hfree.
  rewrite E, skipn_length_app.
  rewrite (strchr_first host (c :: rest) x3a Hhost).
  assert (Hnth : nth (S (length host)) (host ++ x3a :: c :: rest) x00 = c).
  { rewrite app_nth2 by lia.
    replace (S (length host) - length host)%nat with 1%nat by lia.
    reflexivity. }
  rewrite Hnth.
  destruct (Byte.eqb c x00) eqn:Ec.
  { apply Byte.byte_dec_bl in Ec. subst c. exfalso. apply Hfree.
    apply in_or_app. right. apply in_or_app. right. right. now left. }
  assert (Hskip : skipn (S (length host)) (host ++ x3a :: c :: rest)
                  = c :: rest).
  { change (host ++ x3a :: c :: rest) with (host ++ [x3a] ++ c :: rest).
    rewrite app_assoc.
    replace (S (length host)) with (length (host ++ [x3a]))
      by (rewrite length_app; cbn; lia).
    apply skipn_length_app. }
  rewrite Hskip, firstn_length_app.
  destruct (strtol (c :: rest) <? 0); [reflexivity|].
  destruct (tPort_max <? strtol (c :: rest)); reflexivity.
Qed.

End ConnectionFacts.

Section InterfaceFacts.

Variable L : lzo_library.
Variable C : libc.
Variable B : hdfs_backend.

(** X17.  [listImpl] appends to the vector, in order, the last path
    component of every entry of an existing directory, after one
    [hdfsExists] call. *)
Theorem listImpl_names
    (hdfsListDirectory : list byte -> option (list (list byte)))
    (this : HdfsFile) (tr : trace) (path : list byte)
    (_return : list (list byte)) (entries : list (list byte * list byte)) :
  fileSys this <> NULL ->
  hdfsExists_ret B tr (c_str path) = 0 ->
  hdfsListDirectory (c_str path)
  = Some (map (fun e => fst e ++ x2f :: snd e) entries) ->
  Forall (fun e => ~ In x00 (fst e) /\ ~ In x00 (snd e) /\ ~ In x2f (snd e))
    entries ->
  listImpl B hdfsListDirectory this tr path _return
  = (_return ++ map snd entries, tr ++ [CallExists (c_str path)]).
Proof.
  intros Hfs He Hl Hent. unfold listImpl, hdfsExists.
  apply Z.eqb_neq in Hfs. rewrite Hfs, He, Hl. cbn [Z.eqb]. f_equal.
  clear Hl. revert _return.
  induction entries as [|[dir name] entries IH]; intros _return.
  - cbn. now rewrite app_nil_r.
  - inversion Hent as [|? ? (Hd & Hn & Hs) Hrest]; subst.
    cbn [map fold_left fst snd] in *.
    rewrite c_str_id.
    + rewrite (rindex_last dir name x2f Hs). cbn [tl].
      rewrite IH by assumption. now rewrite <- app_assoc.
    + intros Hin. apply in_app_or in Hin as [Hin | [Hin | Hin]];
        [auto | discriminate | auto].
Qed.

Lemma base_filename_eq (this : HdfsFile) :
  len (filename this) <= 2 ^ 64 - 3 ->
  base_filename this = filename this.
Proof.
  intros Hlen. unfold base_filename.
  destruct (0 <? LZOCompressionLevel this); [|reflexivity].
  unfold substr. pose proof (len_nonneg (filename this)).
  replace (len (filename this) <? 0) with false
    by (symmetry; apply Z.ltb_ge; lia).
  change (to_size_t (-3)) with (2 ^ 64 - 3).
  rewrite Z.sub_0_r, Z.min_r by lia.
  change (Z.to_nat 0) with 0%nat. rewrite skipn_O. apply firstn_len.
Qed.

(** X13.  [filename.substr(0, -3)] strips nothing: the length -3 becomes
    [size_t]'s 2^64 - 3 and the copy stops at the end of the name, so the
    name the header holds, from offset 34 on, is the base name of the
    whole file name, suffix included. *)
Theorem base_filename_whole (this : HdfsFile) :
  len (filename this) <= 2 ^ 64 - 3 ->
  base_filename this = filename this
  /\ firstn (length (basename C (c_str (filename this))))
       (skipn 34 (snd (lzo_header_of L C this (base_filename this))))
     = basename C (c_str (filename this)).
Proof.
  intros Hlen. pose proof (base_filename_eq this Hlen) as E.
  split; [exact E|]. rewrite E, lzo_header_of_eq. cbn [snd].
  unfold header_fields, lzop_magic, int16_bytes, int32_bytes.
  cbn [concat app skipn]. rewrite app_nil_r.
  apply firstn_length_app.
Qed.

(** X20.  The layout of the lzop header: it starts with the nine magic
    bytes, is 38 bytes longer than the recorded name, and holds the method
    1 at offset 15 and the low byte of the compression level at
    offset 16. *)
Theorem lzo_header_layout (this : HdfsFile) (base : list byte) :
  firstn 9 (snd (lzo_header_of L C this base)) = lzop_magic
  /\ len (snd (lzo_header_of L C this base))
     = 38 + len (basename C (c_str base))
  /\ nth 15 (snd (lzo_header_of L C this base)) x00 = x01
  /\ nth 16 (snd (lzo_header_of L C this base)) x00
     = uchar (Z.land (LZOCompressionLevel this) 255).
Proof.
  rewrite lzo_header_of_eq. cbn [snd]. unfold header_fields.
  cbn [concat]. split; [reflexivity|]. split; [|split; reflexivity].
  unfold len, lzop_magic, int16_bytes, int32_bytes.
  cbn [app length]. rewrite app_nil_r, length_app. cbn [length]. lia.
Qed.

End InterfaceFacts.

Section SymlinkFacts.

Variable hdfsConnectNewInstance : list byte -> Z -> hdfsFS.
Variable strtol : list byte -> Z.
Variable L : lzo_library.
Variable C : libc.
Variable B : hdfs_backend.

(** X18.  [createSymlink] on a new path that exists does not fail at the
    open: the file is opened for append, the old path is written to it
    raw and the file closed; the answer is whether the sink took the
    whole of the old path, and on a short write the file is left open. *)
Theorem createSymlink_existing_name
    (oldpath newpath : list byte) (level checksum : Z) (tr : trace) :
  connectToPath hdfsConnectNewInstance strtol newpath <> NULL ->
  hdfsExists_ret B tr (c_str newpath) = 0 ->
  hdfsOpenFile_ret B (tr ++ [CallExists (c_str newpath)]) (c_str newpath)
    (Z.lor O_WRONLY O_APPEND) <> NULL ->
  let h := hdfsOpenFile_ret B (tr ++ [CallExists (c_str newpath)])
             (c_str newpath) (Z.lor O_WRONLY O_APPEND) in
  let tr1 := tr ++ [CallExists (c_str newpath);
                    CallOpenFile (c_str newpath) (Z.lor O_WRONLY O_APPEND)] in
  createSymlink hdfsConnectNewInstance strtol L C B
    oldpath newpath level checksum tr
  = if hdfsWrite_ret B tr1 h oldpath (to_int (len oldpath))
       =? to_int (len oldpath)
    then Returns (true,
                  tr1 ++ [CallWrite h oldpath (to_int (len oldpath));
                          CallCloseFile h])
    else Returns (false,
                  tr1 ++ [CallWrite h oldpath (to_int (len oldpath))]).
Proof.
  intros Hfs He Ho h tr1. unfold createSymlink.
  set (link := HdfsFile_ctor hdfsConnectNewInstance strtol newpath
                 level checksum).
  assert (Hfs' : fileSys link <> NULL) by exact Hfs.
  assert (Hh : hfile link = NULL) by reflexivity.
  assert (He' : hdfsExists_ret B tr (c_str (filename link)) = 0) by exact He.
  destruct (openWrite_cases L C B link tr)
    as [[[?|?] _] | [(_ & _ & _ & E) | [(_ & _ & ? & _)
                                        | (_ & _ & ? & _)]]];
    try contradiction.
  change (filename link) with newpath in E. rewrite E. fold h. fold tr1.
  pose proof Ho as Ho'. apply Z.eqb_neq in Ho'. fold h in Ho'.
  rewrite Ho'. cbn [negb].
  unfold write, isOpen. cbn [hfile set_hfile]. rewrite Ho'. cbn [negb].
  cbn [LZOCompressionLevel set_hfile set_LZOCompressionLevel Z.eqb negb].
  unfold hdfsWrite. cbn [hfile set_hfile].
  destruct (hdfsWrite_ret B tr1 h oldpath (to_int (len oldpath))
            =? to_int (len oldpath)); cbn [negb]; [|reflexivity].
  unfold close. cbn [fileSys hfile LZOCompressionLevel set_hfile
                     set_LZOCompressionLevel].
  apply Z.eqb_neq in Hfs.
  change (fileSys link) with
    (connectToPath hdfsConnectNewInstance strtol newpath).
  rewrite Hfs, Ho'. cbn [negb Z.eqb]. unfold hdfsCloseFile.
  rewrite <- app_assoc. reflexivity.
Qed.

(** X19.  When the connection the constructor attempts for the new path
    gives [NULL], [createSymlink] returns [false] and makes none of the
    calls on files: no [hdfsExists], [hdfsOpenFile], [hdfsWrite] or
    [hdfsCloseFile]. *)
Theorem createSymlink_unconnected
    (oldpath newpath : list byte) (level checksum : Z) (tr : trace) :
  connectToPath hdfsConnectNewInstance strtol newpath = NULL ->
  createSymlink hdfsConnectNewInstance strtol L C B
    oldpath newpath level checksum tr
  = Returns (false, tr).
Proof.
  intros Hfs. unfold createSymlink, openWrite.
  cbn [fileSys HdfsFile_ctor]. rewrite Hfs. reflexivity.
Qed.

End SymlinkFacts.

(** ** Strings with a NUL byte *)

Lemma c_str_app_nul (a b : list byte) :
  ~ In x00 a -> c_str (a ++ x00 :: b) = a.
Proof.
  induction a as [|c a IH]; intros H; [reflexivity|].
  cbn [app c_str]. destruct (Byte.eqb c x00) eqn:E.
  - apply Byte.byte_dec_bl in E. subst c. exfalso. apply H. now left.
  - rewrite IH; [reflexivity|]. intros Hin. apply H. now right.
Qed.

Section NulFacts.

Variable L : lzo_library.
Variable C : libc.
Variable B : hdfs_backend.

(** X23.  With compression on, an open writer keeps of a short [write]
    only the bytes before its first NUL byte: they join the backlog, the
    bytes from the NUL on are dropped, nothing reaches the sink and the
    call reports success. *)
Theorem write_cuts_at_nul
    (this : HdfsFile) (tr : trace) (a b : list byte) :
  hfile this <> NULL -> LZOCompressionLevel this <> 0 ->
  ~ In x00 a ->
  len (LZObacklogBuffer this ++ a) < lzo_block_size ->
  write L C B this tr (a ++ x00 :: b)
  = Returns (true,
             set_LZObacklogBuffer this (LZObacklogBuffer this ++ a),
             tr).
Proof.
  intros Hh Hl Ha Hlt.
  rewrite (write_queues L C B this tr (a ++ x00 :: b) Hh Hl);
    rewrite (c_str_app_nul a b Ha); [reflexivity | exact Hlt].
Qed.

End NulFacts.

(** ** What reaches the sink *)

Section TraceFacts.

Variable L : lzo_library.
Variable C : libc.
Variable B : hdfs_backend.

Lemma sound_write (f : hdfsFile) (buffer : list byte) :
  f <> NULL -> sound_call (CallWrite f buffer (to_int (len buffer))) = true.
Proof.
  intros H. cbn [sound_call]. apply Z.eqb_neq in H. rewrite H.
  now rewrite Z.eqb_refl.
Qed.

Lemma openWrite_calls (this this' : HdfsFile) (tr tr' : trace) (ok : bool) :
  openWrite L C B this tr = (ok, this', tr') ->
  exists added,
    tr' = tr ++ added /\ forallb sound_call added = true
    /\ (ok = true -> hfile this' <> NULL).
Proof.
  destruct (openWrite_cases L C B this tr)
    as [[_ E] | [(_ & _ & _ & E) | [(_ & _ & _ & _ & E)
                                    | (_ & _ & _ & Ho & _ & E)]]];
    intros H; rewrite E in H; clear E.
  all: pose proof (f_equal (fun x => fst (fst x)) H) as Hok.
  all: pose proof (f_equal (fun x => snd (fst x)) H) as Hthis.
  all: pose proof (f_equal snd H) as Htr.
  all: cbn [fst snd] in Hok, Hthis, Htr.
  all: clear H.
  all: subst ok this' tr'.
  - exists []. rewrite app_nil_r. repeat split. discriminate.
  - eexists. repeat split. cbn [hfile set_hfile]. intros Hn.
    apply negb_true_iff, Z.eqb_neq in Hn. exact Hn.
  - eexists. repeat split. cbn [hfile set_hfile]. intros Hn.
    apply negb_true_iff, Z.eqb_neq in Hn. exact Hn.
  - eexists. split; [reflexivity|]. split.
    + cbn [forallb]. rewrite sound_write by exact Ho. reflexivity.
    + intros _. rewrite lzo_header_of_eq. exact Ho.
Qed.

Lemma LZOCompress_hfile (this this' : HdfsFile) (inputData out : list byte)
    (force ok : bool) :
  LZOCompress L C this inputData force = Returns (out, ok, this') ->
  hfile this' = hfile this.
Proof.
  intros E. apply LZOCompress_state in E. destruct E as [-> _]. reflexivity.
Qed.

Lemma write_calls (this this' : HdfsFile) (tr tr' : trace)
    (data : list byte) (ok : bool) :
  write L C B this tr data = Returns (ok, this', tr') ->
  exists added, tr' = tr ++ added /\ forallb sound_call added = true.
Proof.
  unfold write.
  assert (Hopen : exists added,
             snd (if negb (isOpen this) then openWrite L C B this tr
                  else (true, this, tr)) = tr ++ added
             /\ forallb sound_call added = true
             /\ (fst (fst (if negb (isOpen this) then openWrite L C B this tr
                           else (true, this, tr))) = true ->
                 hfile (snd (fst (if negb (isOpen this)
                                  then openWrite L C B this tr
                                  else (true, this, tr)))) <> NULL)).
  { unfold isOpen. destruct (hfile this =? NULL) eqn:Hh; cbn [negb].
    - destruct (openWrite L C B this tr) as [[o w] t] eqn:E.
      apply openWrite_calls in E. exact E.
    - exists []. rewrite app_nil_r.
      split; [reflexivity | split; [reflexivity | intros _]].
      apply Z.eqb_neq in Hh. exact Hh. }
  destruct (if negb (isOpen this) then openWrite L C B this tr
            else (true, this, tr)) as [[opened this1] tr1].
  cbn [fst snd] in Hopen. destruct Hopen as (added & -> & Hs & Hh).
  destruct opened; cbn [negb].
  2:{ intros H. inversion H; subst. eauto. }
  specialize (Hh eq_refl).
  assert (Hone : forall (w : HdfsFile) (buf : list byte),
             hfile w = hfile this1 ->
             exists added',
               (tr ++ added) ++ [CallWrite (hfile w) buf (to_int (len buf))]
               = tr ++ added'
               /\ forallb sound_call added' = true).
  { intros w buf Hw. eexists. split; [symmetry; apply app_assoc|].
    rewrite forallb_app, Hs. cbn [forallb andb].
    rewrite sound_write by (rewrite Hw; exact Hh). reflexivity. }
  destruct (LZOCompressionLevel this1 =? 0); cbn [negb].
  { unfold hdfsWrite. intros H. inversion H; subst. now apply Hone. }
  destruct (LZOCompress L C this1 data false) as [[[cd success] this2]| |]
    eqn:E; try discriminate.
  apply LZOCompress_hfile in E. unfold hdfsWrite.
  destruct (negb (string_eqb cd data) && success);
    [|destruct (negb success)];
    intros H; inversion H; subst; eauto.
Qed.

Lemma close_calls (this this' : HdfsFile) (tr tr' : trace) :
  close L C B this tr = Returns (this', tr') ->
  exists added, tr' = tr ++ added /\ forallb sound_call added = true.
Proof.
  assert (Hnil : exists added : trace,
             tr = tr ++ added /\ forallb sound_call added = true).
  { exists []. now rewrite app_nil_r. }
  unfold close.
  destruct (fileSys this =? NULL); cbn [negb].
  { intros H. inversion H; subst. exact Hnil. }
  destruct (hfile this =? NULL) eqn:Hh; cbn [negb].
  { intros H. inversion H; subst. exact Hnil. }
  apply Z.eqb_neq in Hh.
  destruct (LZOCompressionLevel this =? 0); cbn [negb].
  { unfold hdfsCloseFile. intros H. inversion H; subst. eexists.
    split; [reflexivity|]. cbn [forallb sound_call].
    apply Z.eqb_neq in Hh. now rewrite Hh. }
  destruct (LZOCompress L C this [] true) as [[[buf good] this1]| |] eqn:E;
    try discriminate.
  apply LZOCompress_hfile in E. unfold hdfsWrite, hdfsCloseFile. cbn [snd].
  rewrite E. pose proof Hh as Hb. apply Z.eqb_neq in Hb.
  destruct good; intros H; inversion H; subst; eexists;
    (split; [rewrite <- !app_assoc; reflexivity|]);
    cbn [app forallb sound_call]; rewrite Hb, ?Z.eqb_refl; reflexivity.
Qed.

(** X22.  The writer never writes to, or closes, a handle it does not
    hold, and always passes the length of the buffer it passes: every
    [hdfsWrite] and [hdfsCloseFile] a sequence of calls adds to the trace
    is on a handle other than [NULL], and every [hdfsWrite] asks for as
    many bytes as its buffer has. *)
Theorem run_calls_are_sound (ops : list operation) :
  forall (this this' : HdfsFile) (tr tr' : trace),
    run L C B this tr ops = Returns (this', tr') ->
    exists added, tr' = tr ++ added /\ forallb sound_call added = true.
Proof.
  induction ops as [|o ops IH]; intros this this' tr tr'.
  - cbn. intros H. inversion H; subst. exists []. now rewrite app_nil_r.
  - cbn [run].
    destruct (step L C B this tr o) as [[this1 tr1]| |] eqn:E;
      try discriminate.
    intros H. apply IH in H. destruct H as (added2 & -> & Hs2).
    assert (Hstep : exists added,
               tr1 = tr ++ added /\ forallb sound_call added = true).
    { destruct o as [|data| |level]; cbn [step] in E.
      - destruct (openWrite L C B this tr) as [[ok w] t] eqn:Eo.
        inversion E; subst.
        apply openWrite_calls in Eo. destruct Eo as (a & ? & ? & _). eauto.
      - destruct (write L C B this tr data) as [[[ok w] t]| |] eqn:Ew;
          try discriminate.
        inversion E; subst. exact (write_calls _ _ _ _ _ _ Ew).
      - exact (close_calls _ _ _ _ E).
      - inversion E; subst. exists []. now rewrite app_nil_r. }
    destruct Hstep as (added1 & -> & Hs1).
    exists (added1 ++ added2). split; [symmetry; apply app_assoc|].
    now rewrite forallb_app, Hs1, Hs2.
Qed.

End TraceFacts.

(** ** After the terminator *)

Section AfterClose.

Variable L : lzo_library.
Variable C : libc.
Variable B : hdfs_backend.

(** [openWrite] calls nothing, or starts with [hdfsExists] and
    [hdfsOpenFile]. *)
Lemma openWrite_closed (this this' : HdfsFile) (tr tr' : trace) (ok : bool) :
  openWrite L C B this tr = (ok, this', tr') ->
  (ok = false /\ this' = this /\ tr' = tr)
  \/ exists p fl rest, tr' = tr ++ CallExists p :: CallOpenFile p fl :: rest.
Proof.
  intros H.
  destruct (openWrite_cases L C B this tr)
    as [[_ E] | [(_ & _ & _ & E) | [(_ & _ & _ & _ & E)
                                    | (_ & _ & _ & _ & _ & E)]]];
    rewrite E in H; clear E.
  all: pose proof (f_equal (fun x => fst (fst x)) H) as Hok.
  all: pose proof (f_equal (fun x => snd (fst x)) H) as Hthis.
  all: pose proof (f_equal snd H) as Htr.
  all: cbn [fst snd] in Hok, Hthis, Htr.
  all: clear H.
  - left. auto.
  - right. rewrite <- Htr. eexists. eexists. eexists. reflexivity.
  - right. rewrite <- Htr. eexists. eexists. eexists. reflexivity.
  - right. rewrite <- Htr. eexists. eexists. eexists. reflexivity.
Qed.

(** A call on a writer without handle calls nothing and leaves it so, or
    starts by opening the file. *)
Lemma step_closed (this this' : HdfsFile) (tr tr' : trace) (o : operation) :
  hfile this = NULL ->
  step L C B this tr o = Returns (this', tr') ->
  (tr' = tr /\ hfile this' = NULL)
  \/ exists p fl rest, tr' = tr ++ CallExists p :: CallOpenFile p fl :: rest.
Proof.
  intros Hh. destruct o as [|data| |level]; cbn [step].
  - destruct (openWrite L C B this tr) as [[ok w] t] eqn:E.
    intros H. inversion H; subst. clear H.
    destruct (openWrite_closed _ _ _ _ _ E) as [(_ & -> & ->) | Hr]; auto.
  - unfold write, isOpen. rewrite Hh. cbn [Z.eqb NULL negb].
    change (0 =? 0) with true. cbn [negb].
    destruct (openWrite L C B this tr) as [[opened this1] tr1] eqn:E.
    destruct (openWrite_closed _ _ _ _ _ E)
      as [(-> & -> & ->) | (p & fl & rest & ->)].
    { cbn [negb]. intros H. inversion H; subst. auto. }
    assert (Hmore : forall (w : HdfsFile) (more : trace),
               Returns (w, (tr ++ CallExists p :: CallOpenFile p fl :: rest)
                           ++ more)
               = Returns (this', tr') ->
               tr' = tr /\ hfile this' = NULL
               \/ exists p fl rest,
                    tr' = tr ++ CallExists p :: CallOpenFile p fl :: rest).
    { intros w more H. inversion H; subst. right.
      exists p, fl, (rest ++ more). rewrite <- app_assoc. reflexivity. }
    destruct opened; cbn [negb].
    2:{ intros H. apply (Hmore this1 []). rewrite app_nil_r.
        inversion H; subst. reflexivity. }
    destruct (LZOCompressionLevel this1 =? 0); cbn [negb].
    { unfold hdfsWrite. intros H. inversion H; subst.
      eapply Hmore. reflexivity. }
    destruct (LZOCompress L C this1 data false) as [[[cd success] this2]| |];
      try discriminate.
    unfold hdfsWrite.
    destruct (negb (string_eqb cd data) && success);
      [|destruct (negb success)];
      intros H; inversion H; subst.
    + eapply Hmore. reflexivity.
    + eapply Hmore. reflexivity.
    + apply (Hmore this' []). rewrite app_nil_r. reflexivity.
  - unfold close. rewrite Hh.
    destruct (fileSys this =? NULL); cbn [negb Z.eqb NULL];
      change (0 =? 0) with true; cbn [negb];
      intros H; inversion H; subst; auto.
  - intros H. inversion H; subst. left. split; [reflexivity|].
    unfold setShouldLZOCompress.
    destruct (negb (lzo_init L =? LZO_E_OK)); exact Hh.
Qed.

Lemma step_extends (this this' : HdfsFile) (tr tr' : trace) (o : operation) :
  step L C B this tr o = Returns (this', tr') ->
  exists added, tr' = tr ++ added.
Proof.
  destruct o as [|data| |level]; cbn [step].
  - destruct (openWrite L C B this tr) as [[ok w] t] eqn:E.
    intros H. inversion H; subst.
    destruct (openWrite_calls L C B _ _ _ _ _ E) as (a & ? & _). eauto.
  - destruct (write L C B this tr data) as [[[ok w] t]| |] eqn:E;
      try discriminate.
    intros H. inversion H; subst.
    destruct (write_calls L C B _ _ _ _ _ _ E) as (a & ? & _). eauto.
  - intros E. destruct (close_calls L C B _ _ _ _ E) as (a & ? & _). eauto.
  - intros H. inversion H; subst. exists []. now rewrite app_nil_r.
Qed.

Lemma run_extends (ops : list operation) :
  forall (this this' : HdfsFile) (tr tr' : trace),
    run L C B this tr ops = Returns (this', tr') ->
    exists added, tr' = tr ++ added.
Proof.
  induction ops as [|o ops IH]; intros this this' tr tr'.
  - cbn. intros H. inversion H; subst. exists []. now rewrite app_nil_r.
  - cbn [run].
    destruct (step L C B this tr o) as [[this1 tr1]| |] eqn:E;
      try discriminate.
    intros H. apply IH in H. destruct H as (a2 & ->).
    apply step_extends in E. destruct E as (a1 & ->).
    exists (a1 ++ a2). now rewrite app_assoc.
Qed.

(** From a writer without handle, nothing is written before the file is
    opened again. *)
Lemma run_closed (ops : list operation) :
  forall (this this' : HdfsFile) (tr tr' : trace),
    hfile this = NULL ->
    run L C B this tr ops = Returns (this', tr') ->
    exists added, tr' = tr ++ added /\ no_write_before_open added = true.
Proof.
  induction ops as [|o ops IH]; intros this this' tr tr' Hh.
  - cbn. intros H. inversion H; subst. exists []. now rewrite app_nil_r.
  - cbn [run].
    destruct (step L C B this tr o) as [[this1 tr1]| |] eqn:E;
      try discriminate.
    intros H.
    destruct (step_closed _ _ _ _ _ Hh E)
      as [[-> Hh1] | (p & fl & rest & ->)].
    + exact (IH _ _ _ _ Hh1 H).
    + apply run_extends in H. destruct H as (a2 & ->).
      exists (CallExists p :: CallOpenFile p fl :: rest ++ a2).
      split; [|reflexivity].
      rewrite <- app_assoc. reflexivity.
Qed.

Lemma close_hfile (this this' : HdfsFile) (tr tr' : trace) :
  fileSys this <> NULL ->
  close L C B this tr = Returns (this', tr') -> hfile this' = NULL.
Proof.
  intros Hfs. apply Z.eqb_neq in Hfs. unfold close. rewrite Hfs.
  cbn [negb].
  destruct (hfile this =? NULL); cbn [negb].
  { intros H. inversion H; subst. reflexivity. }
  destruct (LZOCompressionLevel this =? 0); cbn [negb].
  { intros H. inversion H; subst. reflexivity. }
  destruct (LZOCompress L C this [] true) as [[[buf good] this1]| |];
    try discriminate.
  intros H. inversion H; subst. reflexivity.
Qed.

(** C8 (amended). [close] on a connected writer with an open handle (its
    backlog shorter than a block, as every operation leaves it).  With
    compression enabled it writes the force-flushed frame of the backlog
    (when the flush succeeded), then the terminator -- one [hdfsWrite] of
    four zero bytes -- and closes the handle at once; the writer is left
    without handle and without backlog.  With compression disabled it
    only closes the handle.  Whatever is called on the writer afterwards,
    nothing more is written to the sink before the file is opened
    again: no [hdfsWrite] precedes the next [hdfsOpenFile]. *)
Theorem close_writes_one_terminator (this : HdfsFile) (tr : trace) :
  fileSys this <> NULL -> hfile this <> NULL ->
  len (LZObacklogBuffer this) < lzo_block_size ->
  (LZOCompressionLevel this <> 0 ->
   exists this',
     close L C B this tr
     = Returns
         (this',
          tr
          ++ (if buffers_allocated L C this
                 && compress_ok L this (LZObacklogBuffer this)
              then [CallWrite (hfile this)
                      (frame_of L this (LZObacklogBuffer this))
                      (to_int (len (frame_of L this (LZObacklogBuffer this))))]
              else [])
          ++ [CallWrite (hfile this) [x00; x00; x00; x00] 4;
              CallCloseFile (hfile this)])
     /\ hfile this' = NULL /\ LZObacklogBuffer this' = [])
  /\ (LZOCompressionLevel this = 0 ->
      close L C B this tr
      = Returns (set_hfile this NULL, tr ++ [CallCloseFile (hfile this)]))
  /\ (forall (ops : list operation) (this' this'' : HdfsFile)
             (tr' tr'' : trace),
        close L C B this tr = Returns (this', tr') ->
        run L C B this' tr' ops = Returns (this'', tr'') ->
        exists added,
          tr'' = tr' ++ added /\ no_write_before_open added = true).
Proof.
  intros Hfs Hh Hlt. split; [|split].
  - intros Hl. apply Z.eqb_neq in Hfs, Hh, Hl. unfold close.
    rewrite Hfs, Hh, Hl. simpl negb. cbv iota.
    destruct (LZOCompress_flush L C this Hlt) as [ck E]. rewrite E.
    destruct (buffers_allocated L C this
              && compress_ok L this (LZObacklogBuffer this));
      eexists;
      (split;
       [ unfold hdfsWrite, hdfsCloseFile;
         cbn [snd hfile set_lzo_checksum set_LZObacklogBuffer];
         rewrite <- ?app_assoc; reflexivity
       | split; reflexivity ]).
  - intros Hl. apply Z.eqb_neq in Hfs, Hh. unfold close.
    rewrite Hfs, Hh, Hl. reflexivity.
  - intros ops this' this'' tr' tr'' Ec Er.
    exact (run_closed ops _ _ _ _ (close_hfile _ _ _ _ Hfs Ec) Er).
Qed.

End AfterClose.

(** ** The further theorems at concrete writers *)

(** Three bytes at level 1, which the stored compressor cannot shrink. *)
Lemma frame_variants_told_apart_witness :
  firstn 4 (skipn (length (@nil byte)) (frame_variant_b [x61; x62; x63]))
  = firstn 4 (skipn 4 (skipn (length (@nil byte))
                         (frame_variant_b [x61; x62; x63])))
  <-> len [x61; x62; x63]
      <= len (snd (compress (lzo_with stored_compress) (writer_with 7 1 [])
                     [x61; x62; x63])).
Proof.
  apply (frame_variants_told_apart (lzo_with stored_compress)
           (writer_with 7 1 [])
           (set_lzo_checksum (writer_with 7 1 []) 1179654)
           [] (frame_variant_b [x61; x62; x63]) [x61; x62; x63]).
  - vm_compute. reflexivity.
  - vm_compute. reflexivity.
Defined.

(** A backlog of 22 ['a'] is flushed at level 9. *)
Lemma LZOCompress_expansion_bound_witness :
  exists out this',
    LZOCompress (lzo_with stored_compress) (libc_with true)
      (writer_with 7 9 (repeat x61 22)) [] true
    = Returns (out, true, this')
    /\ 8 <= len out
    /\ len out
       <= len (LZObacklogBuffer (writer_with 7 9 (repeat x61 22)) ++ c_str [])
          + 15 * Z.max 1
                   (len (LZObacklogBuffer (writer_with 7 9 (repeat x61 22))
                         ++ c_str [])
                    / lzo_block_size).
Proof.
  apply (LZOCompress_expansion_bound
           (lzo_with stored_compress) (libc_with true)
           (writer_with 7 9 (repeat x61 22)) [] true).
  - vm_compute. reflexivity.
  - left. reflexivity.
  - vm_compute. reflexivity.
  - vm_compute. reflexivity.
Defined.

(** The same flush: 22 bytes are less than a block. *)
Lemma LZOCompress_frames_whole_input_witness :
  exists blocks this',
    LZOCompress (lzo_with stored_compress) (libc_with true)
      (writer_with 7 9 (repeat x61 22)) [] true
    = Returns (flat_map (frame_of (lzo_with stored_compress)
                           (writer_with 7 9 (repeat x61 22))) blocks,
               true, this')
    /\ concat blocks
       = LZObacklogBuffer (writer_with 7 9 (repeat x61 22)) ++ c_str []
    /\ Forall (fun b => len b <= lzo_block_size) blocks
    /\ LZObacklogBuffer this' = [].
Proof.
  apply (LZOCompress_frames_whole_input
           (lzo_with stored_compress) (libc_with true)
           (writer_with 7 9 (repeat x61 22)) [] true).
  - vm_compute. reflexivity.
  - left. reflexivity.
  - vm_compute. reflexivity.
  - vm_compute. reflexivity.
  - left. vm_compute. reflexivity.
Defined.

(** Two writes at level 0, the second with a NUL byte in it. *)
Lemma raw_writes_pass_through_witness :
  run (lzo_with stored_compress) (libc_with true) (backend_with [] 7)
    (writer_with 7 0 []) [] (map DoWrite [[x61]; [x62; x00; x63]])
  = Returns (writer_with 7 0 [],
             [] ++ map (fun d => CallWrite (hfile (writer_with 7 0 [])) d
                                   (to_int (len d)))
                     [[x61]; [x62; x00; x63]]).
Proof.
  apply (raw_writes_pass_through
           (lzo_with stored_compress) (libc_with true) (backend_with [] 7)
           [[x61]; [x62; x00; x63]] (writer_with 7 0 []) []).
  - discriminate.
  - reflexivity.
Defined.

(** A block of ['A'] and a byte more are written at level 1. *)
Lemma write_emits_frames_witness :
  exists ck,
    write (lzo_with stored_compress) (libc_with true) (backend_with [] 7)
      (writer_with 7 1 []) [] block_and_a_byte
    = Returns
        (hdfsWrite_ret (backend_with [] 7) [] (hfile (writer_with 7 1 []))
           (flat_map (frame_of (lzo_with stored_compress)
                        (writer_with 7 1 []))
              (framer_blocks (LZObacklogBuffer (writer_with 7 1 [])
                              ++ c_str block_and_a_byte)))
           (to_int
              (len (flat_map (frame_of (lzo_with stored_compress)
                                (writer_with 7 1 []))
                      (framer_blocks (LZObacklogBuffer (writer_with 7 1 [])
                                      ++ c_str block_and_a_byte)))))
         =? to_int
              (len (flat_map (frame_of (lzo_with stored_compress)
                                (writer_with 7 1 []))
                      (framer_blocks (LZObacklogBuffer (writer_with 7 1 [])
                                      ++ c_str block_and_a_byte)))),
         set_lzo_checksum (set_LZObacklogBuffer (writer_with 7 1 []) []) ck,
         [] ++ [CallWrite (hfile (writer_with 7 1 []))
                  (flat_map (frame_of (lzo_with stored_compress)
                               (writer_with 7 1 []))
                     (framer_blocks (LZObacklogBuffer (writer_with 7 1 [])
                                     ++ c_str block_and_a_byte)))
                  (to_int
                     (len (flat_map (frame_of (lzo_with stored_compress)
                                       (writer_with 7 1 []))
                             (framer_blocks
                                (LZObacklogBuffer (writer_with 7 1 [])
                                 ++ c_str block_and_a_byte)))))]).
Proof.
  apply (write_emits_frames
           (lzo_with stored_compress) (libc_with true) (backend_with [] 7)
           (writer_with 7 1 []) [] block_and_a_byte).
  - discriminate.
  - discriminate.
  - vm_compute. reflexivity.
  - split; [apply Z.leb_le | apply Z.ltb_lt]; vm_compute; reflexivity.
  - vm_compute. reflexivity.
  - vm_compute. reflexivity.
Defined.

(** The level is set, the file opened, a byte written and the file
    closed. *)
Lemma run_keeps_backlog_short_witness :
  exists this' tr',
    run (lzo_with stored_compress) (libc_with true) (backend_with [] 7)
      (writer_with NULL 0 []) []
      [DoSetShouldLZOCompress 1; DoOpenWrite; DoWrite [x61]; DoClose]
    = Returns (this', tr')
    /\ len (LZObacklogBuffer this') < lzo_block_size.
Proof.
  apply (run_keeps_backlog_short
           (lzo_with stored_compress) (libc_with true) (backend_with [] 7)
           [DoSetShouldLZOCompress 1; DoOpenWrite; DoWrite [x61]; DoClose]
           (writer_with NULL 0 []) []).
  - vm_compute. reflexivity.
  - vm_compute. reflexivity.
Defined.

(** The writer and the trace left by closing a backlog of three bytes. *)
Lemma close_twice_witness :
  close (lzo_with stored_compress) (libc_with true) (backend_with [] 7)
    (set_hfile (set_lzo_checksum (writer_with 7 1 []) 1179654) NULL)
    [CallWrite 7 (frame_variant_b [x61; x62; x63]) 11;
     CallWrite 7 [x00; x00; x00; x00] 4;
     CallCloseFile 7]
  = Returns
      (set_hfile (set_lzo_checksum (writer_with 7 1 []) 1179654) NULL,
       [CallWrite 7 (frame_variant_b [x61; x62; x63]) 11;
        CallWrite 7 [x00; x00; x00; x00] 4;
        CallCloseFile 7]).
Proof.
  apply (close_twice
           (lzo_with stored_compress) (libc_with true) (backend_with [] 7)
           (writer_with 7 1 [x61; x62; x63])
           (set_hfile (set_lzo_checksum (writer_with 7 1 []) 1179654) NULL)
           []).
  vm_compute. reflexivity.
Defined.

(** The name exists; the writer comes closed, with level 3. *)
Lemma write_reopens_for_append_witness :
  exists h ok,
    write (lzo_with stored_compress) (libc_with true)
      (backend_with [log_name] 7) (writer_with NULL 3 []) [] [x61]
    = Returns (ok,
               set_hfile (set_LZOCompressionLevel (writer_with NULL 3 []) 0) h,
               [] ++ [CallExists (c_str (filename (writer_with NULL 3 [])));
                      CallOpenFile (c_str (filename (writer_with NULL 3 [])))
                        (Z.lor O_WRONLY O_APPEND);
                      CallWrite h [x61] (to_int (len [x61]))])
    /\ h <> NULL.
Proof.
  apply (write_reopens_for_append
           (lzo_with stored_compress) (libc_with true)
           (backend_with [log_name] 7) (writer_with NULL 3 []) [] [x61]).
  - discriminate.
  - reflexivity.
  - vm_compute. reflexivity.
  - vm_compute. discriminate.
Defined.

(** The writer the constructor builds when the cluster refuses. *)
Lemma unconnected_writer_is_inert_witness :
  openRead (backend_with [] 7)
    (HdfsFile_ctor connect_never strtol_decimal log_name 1 0) []
  = (false, HdfsFile_ctor connect_never strtol_decimal log_name 1 0, [])
  /\ openWrite (lzo_with stored_compress) (libc_with true) (backend_with [] 7)
       (HdfsFile_ctor connect_never strtol_decimal log_name 1 0) []
     = (false, HdfsFile_ctor connect_never strtol_decimal log_name 1 0, [])
  /\ write (lzo_with stored_compress) (libc_with true) (backend_with [] 7)
       (HdfsFile_ctor connect_never strtol_decimal log_name 1 0) [] [x61]
     = Returns
         (false, HdfsFile_ctor connect_never strtol_decimal log_name 1 0, [])
  /\ close (lzo_with stored_compress) (libc_with true) (backend_with [] 7)
       (HdfsFile_ctor connect_never strtol_decimal log_name 1 0) []
     = Returns (HdfsFile_ctor connect_never strtol_decimal log_name 1 0, []).
Proof.
  apply (unconnected_writer_is_inert
           (lzo_with stored_compress) (libc_with true) (backend_with [] 7)
           (HdfsFile_ctor connect_never strtol_decimal log_name 1 0) [] [x61]).
  - reflexivity.
  - reflexivity.
Defined.

(** An open writer at level 1 with nothing queued. *)
Lemma close_flushes_empty_frame_witness :
  exists this',
    close (lzo_with stored_compress) (libc_with true) (backend_with [] 7)
      (writer_with 7 1 []) []
    = Returns (this',
               [] ++ [CallWrite (hfile (writer_with 7 1 [])) (repeat x00 8) 8;
                      CallWrite (hfile (writer_with 7 1 [])) (repeat x00 4) 4;
                      CallCloseFile (hfile (writer_with 7 1 []))]).
Proof.
  apply (close_flushes_empty_frame
           (lzo_with stored_compress) (libc_with true) (backend_with [] 7)
           (writer_with 7 1 []) []).
  - discriminate.
  - discriminate.
  - discriminate.
  - reflexivity.
  - vm_compute. reflexivity.
  - vm_compute. reflexivity.
Defined.


(** The name [/log/f.lzo] at level 1. *)
Lemma base_filename_whole_witness :
  base_filename (writer_with NULL 1 []) = filename (writer_with NULL 1 [])
  /\ firstn (length (basename (libc_with true)
                       (c_str (filename (writer_with NULL 1 [])))))
       (skipn 34 (snd (lzo_header_of (lzo_with stored_compress)
                         (libc_with true) (writer_with NULL 1 [])
                         (base_filename (writer_with NULL 1 [])))))
     = basename (libc_with true) (c_str (filename (writer_with NULL 1 []))).
Proof.
  apply (base_filename_whole (lzo_with stored_compress) (libc_with true)
           (writer_with NULL 1 [])).
  vm_compute. discriminate.
Defined.

(** The name [/log/f.lzo]. *)
Lemma connectToPath_default_witness :
  connectToPath connect_always strtol_decimal log_name
  = connect_always default_cluster 0.
Proof.
  apply (connectToPath_default connect_always strtol_decimal log_name).
  vm_compute. discriminate.
Defined.

(** The name [hdfs://nn:]. *)
Lemma connectToPath_missing_port_witness :
  connectToPath connect_always strtol_decimal (proto ++ [x6e; x6e; x3a])
  = NULL.
Proof.
  apply (connectToPath_missing_port connect_always strtol_decimal
           (proto ++ [x6e; x6e; x3a]) [x6e; x6e] [x3a]).
  - reflexivity.
  - simpl. intuition discriminate.
  - right. reflexivity.
Defined.

(** The name [hdfs://nn:90/log]. *)
Lemma connectToPath_host_port_witness :
  connectToPath connect_always strtol_decimal
    (proto ++ [x6e; x6e; x3a; x39; x30; x2f; x6c; x6f; x67])
  = if (strtol_decimal [x39; x30; x2f; x6c; x6f; x67] <? 0)
       || (tPort_max <? strtol_decimal [x39; x30; x2f; x6c; x6f; x67])
    then NULL
    else connect_always [x6e; x6e]
           (strtol_decimal [x39; x30; x2f; x6c; x6f; x67]).
Proof.
  apply (connectToPath_host_port connect_always strtol_decimal
           (proto ++ [x6e; x6e; x3a; x39; x30; x2f; x6c; x6f; x67])
           [x6e; x6e] x39 [x30; x2f; x6c; x6f; x67]).
  - reflexivity.
  - simpl. intuition discriminate.
Defined.

(** The directory [/log] holds [a] and [b]. *)
Lemma listImpl_names_witness :
  listImpl (backend_with [[x2f; x6c; x6f; x67]] 7)
    (fun _ => Some [[x2f; x6c; x6f; x67; x2f; x61];
                    [x2f; x6c; x6f; x67; x2f; x62]])
    (writer_with NULL 0 []) [] [x2f; x6c; x6f; x67] []
  = ([] ++ map snd [([x2f; x6c; x6f; x67], [x61]);
                    ([x2f; x6c; x6f; x67], [x62])],
     [] ++ [CallExists (c_str [x2f; x6c; x6f; x67])]).
Proof.
  apply (listImpl_names (backend_with [[x2f; x6c; x6f; x67]] 7)
           (fun _ => Some [[x2f; x6c; x6f; x67; x2f; x61];
                           [x2f; x6c; x6f; x67; x2f; x62]])
           (writer_with NULL 0 []) [] [x2f; x6c; x6f; x67] []
           [([x2f; x6c; x6f; x67], [x61]); ([x2f; x6c; x6f; x67], [x62])]).
  - discriminate.
  - vm_compute. reflexivity.
  - reflexivity.
  - repeat constructor; simpl; intuition discriminate.
Defined.

(** The new path [/log/f.lzo] exists; the old path is [/a]. *)
Lemma createSymlink_existing_name_witness :
  createSymlink connect_always strtol_decimal
    (lzo_with stored_compress) (libc_with true) (backend_with [log_name] 7)
    [x2f; x61] log_name 1 0 []
  = Returns (true,
             [CallExists log_name;
              CallOpenFile log_name (Z.lor O_WRONLY O_APPEND);
              CallWrite 7 [x2f; x61] 2;
              CallCloseFile 7]).
Proof.
  rewrite (createSymlink_existing_name connect_always strtol_decimal
             (lzo_with stored_compress) (libc_with true)
             (backend_with [log_name] 7) [x2f; x61] log_name 1 0 []).
  - vm_compute. reflexivity.
  - vm_compute. discriminate.
  - vm_compute. reflexivity.
  - vm_compute. discriminate.
Defined.

(** The cluster refuses the connection. *)
Lemma createSymlink_unconnected_witness :
  createSymlink connect_never strtol_decimal
    (lzo_with stored_compress) (libc_with true) (backend_with [] 7)
    [x2f; x61] log_name 1 0 []
  = Returns (false, []).
Proof.
  apply (createSymlink_unconnected connect_never strtol_decimal
           (lzo_with stored_compress) (libc_with true) (backend_with [] 7)
           [x2f; x61] log_name 1 0 []).
  reflexivity.
Defined.

(** A new name at level 1; [a] and [bc] are written, and the file
    closed. *)
Lemma short_stream_is_one_frame_witness :
  exists this' header,
    run (lzo_with stored_compress) (libc_with true) (backend_with [] 7)
      (writer_with NULL 1 []) []
      (DoOpenWrite :: map DoWrite [[x61]; [x62; x63]] ++ [DoClose])
    = Returns
        (this',
         [CallExists log_name;
          CallOpenFile log_name O_WRONLY;
          CallWrite 7 header 43;
          CallWrite 7 (frame_variant_b [x61; x62; x63]) 11;
          CallWrite 7 [x00; x00; x00; x00] 4;
          CallCloseFile 7])
    /\ hfile this' = NULL /\ LZObacklogBuffer this' = [].
Proof.
  destruct (short_stream_is_one_frame
              (lzo_with stored_compress) (libc_with true) (backend_with [] 7)
              (writer_with NULL 1 []) [] [[x61]; [x62; x63]])
    as (this' & E & Hh & Hb).
  - discriminate.
  - reflexivity.
  - discriminate.
  - vm_compute. discriminate.
  - vm_compute. discriminate.
  - repeat constructor; simpl; intuition discriminate.
  - vm_compute. reflexivity.
  - vm_compute. reflexivity.
  - vm_compute. reflexivity.
  - exists this'. eexists. split; [|split; assumption].
    rewrite E. vm_compute. reflexivity.
Defined.

(** A file is opened at level 0, a byte written and the file closed. *)
Lemma run_calls_are_sound_witness :
  exists added,
    [CallExists log_name; CallOpenFile log_name O_WRONLY;
     CallWrite 7 [x61] 1; CallCloseFile 7]
    = [] ++ added
    /\ forallb sound_call added = true.
Proof.
  apply (run_calls_are_sound
           (lzo_with stored_compress) (libc_with true) (backend_with [] 7)
           [DoOpenWrite; DoWrite [x61]; DoClose]
           (writer_with NULL 0 []) (writer_with NULL 0 []) []).
  vm_compute. reflexivity.
Defined.

(** [b], NUL, [c] are written after a backlog of [a]. *)
Lemma write_cuts_at_nul_witness :
  write (lzo_with stored_compress) (libc_with true) (backend_with [] 7)
    (writer_with 7 1 [x61]) [] ([x62] ++ x00 :: [x63])
  = Returns (true,
             set_LZObacklogBuffer (writer_with 7 1 [x61])
               (LZObacklogBuffer (writer_with 7 1 [x61]) ++ [x62]),
             []).
Proof.
  apply (write_cuts_at_nul
           (lzo_with stored_compress) (libc_with true) (backend_with [] 7)
           (writer_with 7 1 [x61]) [] [x62] [x63]).
  - discriminate.
  - discriminate.
  - simpl. intuition discriminate.
  - vm_compute. reflexivity.
Defined.

(** A backlog of three bytes is flushed at level 1 and the writer closed;
    then a byte is written and the writer closed again. *)
Lemma close_writes_one_terminator_witness :
  exists this',
    close (lzo_with stored_compress) (libc_with true) (backend_with [] 7)
      (writer_with 7 1 [x61; x62; x63]) []
    = Returns (this',
               [CallWrite 7 (frame_variant_b [x61; x62; x63]) 11;
                CallWrite 7 [x00; x00; x00; x00] 4;
                CallCloseFile 7])
    /\ hfile this' = NULL /\ LZObacklogBuffer this' = []
    /\ (forall (this'' : HdfsFile) (tr'' : trace),
          run (lzo_with stored_compress) (libc_with true) (backend_with [] 7)
            this'
            [CallWrite 7 (frame_variant_b [x61; x62; x63]) 11;
             CallWrite 7 [x00; x00; x00; x00] 4;
             CallCloseFile 7]
            [DoWrite [x64]; DoClose]
          = Returns (this'', tr'') ->
          exists added,
            tr'' = [CallWrite 7 (frame_variant_b [x61; x62; x63]) 11;
                    CallWrite 7 [x00; x00; x00; x00] 4;
                    CallCloseFile 7] ++ added
            /\ no_write_before_open added = true).
Proof.
  destruct (close_writes_one_terminator
              (lzo_with stored_compress) (libc_with true) (backend_with [] 7)
              (writer_with 7 1 [x61; x62; x63]) []) as (Hon & _ & Hafter).
  - discriminate.
  - discriminate.
  - vm_compute. reflexivity.
  - destruct Hon as (this' & E & Hh & Hb); [discriminate|].
    assert (E' : close (lzo_with stored_compress) (libc_with true)
                   (backend_with [] 7) (writer_with 7 1 [x61; x62; x63]) []
                 = Returns (this',
                            [CallWrite 7 (frame_variant_b [x61; x62; x63]) 11;
                             CallWrite 7 [x00; x00; x00; x00] 4;
                             CallCloseFile 7]))
      by (rewrite E; vm_compute; reflexivity).
    exists this'. split; [exact E'|]. split; [exact Hh|].
    split; [exact Hb|].
    intros this'' tr'' Hr.
    exact (Hafter [DoWrite [x64]; DoClose] _ _ _ _ E' Hr).
Defined.
